(** * IMS-Toucan: style-embedding windowing and the log-STFT magnitude loss

    A shallow embedding of

    - [TrainingInterfaces/Spectrogram_to_Embedding/StyleEmbedding.py]
      ([StyleEmbedding.forward]): every padded spectrogram of a batch is cut
      to its true length, repeated until it has at least [window_size]
      frames and cropped at a random offset to exactly [window_size] frames;
      the windows are stacked and handed to the style encoder;
    - [MelGAN/LogSTFTMagnitudeLoss.py] ([LogSTFTMagnitudeLoss.forward]):
      the L1 loss between the logarithms of two magnitude spectrograms.

    Tensors are lists (a 2-d tensor is the list of its rows, a 3-d tensor
    the list of its 2-d entries).  Python integers are [Z].  The call of
    [numpy.random.randint] is an event of a small program tree, interpreted
    over an explicit generator state; exceptions are results; the [while]
    loop runs on fuel.  The loss is written twice: over the real numbers,
    and over values with the infinities and NaN of IEEE 754, for what
    depends on them. *)

From Stdlib Require Import String.
From Stdlib Require Import List ZArith QArith Lia Bool Arith.
From Stdlib Require Import Reals Lra.
Import ListNotations.

(* ================================================================== *)
(** * Part I: the code *)
(* ================================================================== *)

Module StyleEmbedding.

Local Open Scope Z_scope.

(** ** Exceptions and program trees *)

(** The exceptions the body of [forward] can raise: indexing the batch
    past its end, [numpy.random.randint] on an empty range, [torch.stack]
    on an empty list or on tensors of different sizes. *)
Inductive exn : Type :=
| IndexError
| ValueError
| RuntimeError.

(** A computation either returns, raises, is still inside the [while]
    loop when the fuel given to the loop is used up ([Spin]), or asks
    [numpy.random.randint(low, high)] for a number and goes on with it.
    The code terminates when some fuel avoids [Spin] (more fuel then
    changes nothing), and runs forever when every fuel ends in [Spin]. *)
Inductive prog (X : Type) : Type :=
| Ret (x : X)
| Raise (e : exn)
| Spin
| Randint (low high : Z) (k : Z -> prog X).

Arguments Ret {X} x.
Arguments Raise {X} e.
Arguments Spin {X}.
Arguments Randint {X} low high k.

Fixpoint bind {X Y : Type} (p : prog X) (f : X -> prog Y) : prog Y :=
  match p with
  | Ret x => f x
  | Raise e => Raise e
  | Spin => Spin
  | Randint low high k => Randint low high (fun r => bind (k r) f)
  end.

Notation "x <- p ;; q" := (bind p (fun x => q))
  (at level 61, p at next level, right associativity).

(** [numpy.random.randint(low=..., high=...)] as called by the code. *)
Definition randint (low high : Z) : prog Z := Randint low high (fun r => Ret r).

(** ** The ambient generator of [numpy.random]

    [forward] takes no generator: it draws from the process-wide state of
    [numpy.random].  The generator is an interface: a state and a draw that
    answers inside the half-open range it is asked for. *)
Class NumpyRandom (G : Type) : Type := {
  draw : G -> Z -> Z -> Z * G;
  draw_in_range : forall g low high,
      low < high -> low <= fst (draw g low high) < high
}.

Inductive outcome (X : Type) : Type :=
| Returns (x : X)
| Raises (e : exn)
| Diverges.

Arguments Returns {X} x.
Arguments Raises {X} e.
Arguments Diverges {X}.

(** Running a program tree from a generator state: the result and the
    state left behind.  [randint] raises [ValueError] when [high <= low]
    and does not advance the state then. *)
Fixpoint run {G : Type} `{NumpyRandom G} {X : Type} (p : prog X) (g : G)
  : outcome X * G :=
  match p with
  | Ret x => (Returns x, g)
  | Raise e => (Raises e, g)
  | Spin => (Diverges, g)
  | Randint low high k =>
      if high <=? low then (Raises ValueError, g)
      else let (r, g') := draw g low high in run (k r) g'
  end.

(** [numpy.random.randint] is documented to draw from the discrete uniform
    distribution over [[low, high)] (and to raise on an empty range).  The
    results a program can have, each with its probability. *)
Definition py_range (low high : Z) : list Z :=
  map (fun i => low + Z.of_nat i) (seq 0 (Z.to_nat (high - low))).

Fixpoint distribution {X : Type} (p : prog X) : list (Q * outcome X) :=
  match p with
  | Ret x => [(1%Q, Returns x)]
  | Raise e => [(1%Q, Raises e)]
  | Spin => [(1%Q, Diverges)]
  | Randint low high k =>
      if high <=? low then [(1%Q, Raises ValueError)]
      else
        flat_map
          (fun r =>
             map (fun qo : Q * outcome X =>
                    (Qdiv (fst qo) (inject_Z (high - low)), snd qo))
                 (distribution (k r)))
          (py_range low high)
  end.

(** ** Tensors *)

Definition tensor2 (A : Type) : Type := list (list A).
Definition tensor3 (A : Type) : Type := list (tensor2 A).

Section Tensors.

Context {A : Type}.

(** [len(t)]. *)
Definition py_len {T : Type} (t : list T) : Z := Z.of_nat (length t).

(** A slice bound brought into [0 .. len] the way Python does it: a
    negative bound counts from the end, and everything is clipped. *)
Definition adjust_bound (i len : Z) : Z :=
  if i <? 0 then Z.max 0 (i + len) else Z.min i len.

(** [t[lo:hi]]. *)
Definition py_slice {T : Type} (t : list T) (lo hi : Z) : list T :=
  let a := adjust_bound lo (py_len t) in
  let b := adjust_bound hi (py_len t) in
  firstn (Z.to_nat (b - a)) (skipn (Z.to_nat a) t).

(** [t[:hi]]. *)
Definition py_slice_to {T : Type} (t : list T) (hi : Z) : list T :=
  py_slice t 0 hi.

(** [t.repeat((a, b))] of a 2-d tensor: [a] copies along the time axis of
    rows that each hold [b] copies of the original row. *)
Definition tensor_repeat (a b : nat) (t : tensor2 A) : tensor2 A :=
  concat (repeat (map (fun row => concat (repeat row b)) t) a).

(** Two 2-d tensors of the same size: as many rows, of the same widths. *)
Definition same_size (t u : tensor2 A) : bool :=
  if list_eq_dec Nat.eq_dec (map (@length A) t) (map (@length A) u)
  then true else false.

(** [torch.stack(tensors, dim=0)]: refuses an empty list and tensors of
    different sizes. *)
Definition torch_stack (tensors : list (tensor2 A)) : prog (tensor3 A) :=
  match tensors with
  | [] => Raise RuntimeError
  | t :: rest =>
      if forallb (same_size t) rest then Ret tensors else Raise RuntimeError
  end.

(** ** [StyleEmbedding.forward] *)

Definition window_size : Z := 256.

(** Lines 50-53: [while current_spec_length < window_size: spec =
    spec.repeat((2, 1))].  One unit of fuel pays for one test of the loop
    condition; [None] when the fuel is gone before the loop is left. *)
Fixpoint while_too_short (fuel : nat) (spec : tensor2 A) : option (tensor2 A) :=
  match fuel with
  | O => None
  | S fuel' =>
      if py_len spec <? window_size
      then while_too_short fuel' (tensor_repeat 2 1 spec)
      else Some spec
  end.

(** Lines 48-53: the doubling step. *)
Definition double_spec (fuel : nat) (spec : tensor2 A) : option (tensor2 A) :=
  while_too_short fuel (tensor_repeat 2 1 spec).

(** Lines 54-61: what the iteration appends to [list_of_specs] ([None]:
    nothing is appended). *)
Definition take_window (spec : tensor2 A) : prog (option (tensor2 A)) :=
  let current_spec_length := py_len spec in
  if current_spec_length >? window_size then
    let frames_to_remove := current_spec_length - window_size in
    remove_front <- randint 0 frames_to_remove ;;
    Ret (Some (py_slice spec remove_front (remove_front + window_size)))
  else if current_spec_length =? window_size then
    Ret (Some spec)
  else
    Ret None.

(** Lines 46-61: one iteration of the [for] loop. *)
Definition loop_body (fuel : nat) (batch_of_spectrograms : tensor3 A)
    (index : nat) (spec_length : Z) : prog (option (tensor2 A)) :=
  match nth_error batch_of_spectrograms index with
  | None => Raise IndexError
  | Some entry =>
      let spec := py_slice_to entry spec_length in
      match double_spec fuel spec with
      | None => Spin
      | Some spec => take_window spec
      end
  end.

(** Lines 44-61: [for index, spec_length in enumerate(lengths)], from
    position [index] on, with the list built so far. *)
Fixpoint for_loop (fuel : nat) (batch_of_spectrograms : tensor3 A)
    (index : nat) (lengths : list Z) (list_of_specs : list (tensor2 A))
  : prog (list (tensor2 A)) :=
  match lengths with
  | [] => Ret list_of_specs
  | spec_length :: rest =>
      appended <- loop_body fuel batch_of_spectrograms index spec_length ;;
      for_loop fuel batch_of_spectrograms (S index) rest
        (match appended with
         | Some window => list_of_specs ++ [window]
         | None => list_of_specs
         end)
  end.

(** Lines 42-63: the windowing stage, up to the stacked tensor
    [batch_of_spectrograms_unified_length]. *)
Definition unified_length (fuel : nat) (batch_of_spectrograms : tensor3 A)
    (batch_of_spectrogram_lengths : list Z) : prog (tensor3 A) :=
  list_of_specs <- for_loop fuel batch_of_spectrograms 0
                     batch_of_spectrogram_lengths [] ;;
  torch_stack list_of_specs.

(** Lines 22-66.  The style encoder [self.gst] (GST.py) is a parameter;
    the two flags are whatever the caller passed, of a type [Fl]. *)
Definition forward {E Fl : Type} (gst : tensor3 A -> Fl -> Fl -> E)
    (fuel : nat) (batch_of_spectrograms : tensor3 A)
    (batch_of_spectrogram_lengths : list Z)
    (return_all_outs return_only_refs : Fl) : prog E :=
  batch_of_spectrograms_unified_length <-
    unified_length fuel batch_of_spectrograms batch_of_spectrogram_lengths ;;
  Ret (gst batch_of_spectrograms_unified_length
           return_all_outs return_only_refs).

(** [k] copies of [l], one after the other: what repetition builds. *)
Definition copies {T : Type} (k : nat) (l : list T) : list T :=
  concat (repeat l k).

(** [w] holds [window_size] rows, read cyclically from the first [n] rows
    of [src] starting at row [r]: row [j] of [w] is row [(r + j) mod n] of
    [src]. *)
Definition cyclic_window (src : tensor2 A) (n r : nat) (w : tensor2 A) : Prop :=
  length w = Z.to_nat window_size /\
  forall j, (j < Z.to_nat window_size)%nat ->
    ((r + j) mod n < n)%nat /\
    nth_error w j = nth_error src ((r + j) mod n).

(** Two batches that hold the same rows below the true lengths (and
    anything in the padding, of any extent). *)
Definition same_valid_rows (lengths : list Z) (batch batch' : tensor3 A)
  : Prop :=
  length batch' = length batch /\
  forall i n src src',
    nth_error lengths i = Some n ->
    nth_error batch i = Some src ->
    nth_error batch' i = Some src' ->
    n <= py_len src' /\
    firstn (Z.to_nat n) src' = firstn (Z.to_nat n) src.

(** ** Shapes *)

(** A 2-d tensor of [rows] rows of [cols] entries. *)
Definition has_shape2 (rows cols : nat) (t : tensor2 A) : Prop :=
  length t = rows /\ Forall (fun row => length row = cols) t.

(** A 3-d tensor of shape [(n, rows, cols)]. *)
Definition has_shape3 (n rows cols : nat) (t : tensor3 A) : Prop :=
  length t = n /\ Forall (has_shape2 rows cols) t.

(** The input the docstring describes: a batch [(N, L_max, F)] and [N]
    true lengths, each between 1 and [L_max]. *)
Definition valid_input (N L_max F : nat) (batch : tensor3 A)
    (lengths : list Z) : Prop :=
  has_shape3 N L_max F batch /\
  length lengths = N /\
  Forall (fun n => 1 <= n <= Z.of_nat L_max) lengths.

End Tensors.

(** ** Calling [forward] (lines 22-26)

    [def forward(self, batch_of_spectrograms, batch_of_spectrogram_lengths,
    return_all_outs=False, return_only_refs=False)].  A call passes the
    two tensors positionally, then further positional arguments and
    keyword arguments.  Python binds them to the two remaining parameters
    and raises [TypeError] before the body runs when an argument has no
    parameter to go to or a parameter gets two values. *)

(** What a caller may pass besides the tensors: a boolean, or a random
    source of its own (a generator object with its state). *)
Inductive pyobj (G : Type) : Type :=
| PyBool (b : bool)
| PyRandomState (g : G).

Arguments PyBool {G} b.
Arguments PyRandomState {G} g.

Section Calling.

Context {A : Type} {G : Type} {E : Type}.

(** The parameters [return_all_outs] and [return_only_refs] while the
    arguments are bound: not given yet, or given. *)
Definition bind_positional (positional : list (pyobj G))
  : option (option (pyobj G) * option (pyobj G)) :=
  match positional with
  | [] => Some (None, None)
  | [a] => Some (Some a, None)
  | [a; b] => Some (Some a, Some b)
  | _ => None
  end.

Definition bind_keyword
    (bound : option (option (pyobj G) * option (pyobj G)))
    (keyword : string * pyobj G)
  : option (option (pyobj G) * option (pyobj G)) :=
  match bound with
  | None => None
  | Some (a, b) =>
      if String.eqb (fst keyword) "return_all_outs" then
        match a with
        | None => Some (Some (snd keyword), b)
        | Some _ => None
        end
      else if String.eqb (fst keyword) "return_only_refs" then
        match b with
        | None => Some (a, Some (snd keyword))
        | Some _ => None
        end
      else None
  end.

Definition or_default (given : option (pyobj G)) : pyobj G :=
  match given with
  | Some v => v
  | None => PyBool false
  end.

(** The values of the two flags, or [None] for [TypeError]. *)
Definition bind_arguments (positional : list (pyobj G))
    (keywords : list (string * pyobj G)) : option (pyobj G * pyobj G) :=
  match fold_left bind_keyword keywords (bind_positional positional) with
  | None => None
  | Some (a, b) => Some (or_default a, or_default b)
  end.

(** [style_emb(batch, lengths, *positional, **keywords)]: [None] when the
    call raises [TypeError] before the body runs, else the body. *)
Definition call_forward (gst : tensor3 A -> pyobj G -> pyobj G -> E)
    (fuel : nat) (batch_of_spectrograms : tensor3 A)
    (batch_of_spectrogram_lengths : list Z)
    (positional : list (pyobj G)) (keywords : list (string * pyobj G))
  : option (prog E) :=
  match bind_arguments positional keywords with
  | None => None
  | Some (return_all_outs, return_only_refs) =>
      Some (forward gst fuel batch_of_spectrograms
              batch_of_spectrogram_lengths return_all_outs return_only_refs)
  end.

(** ** The window as a function of the offset *)

(** The sequence an element is cropped from: its valid rows after the
    doubling step (nothing when the loop is not left within the fuel). *)
Definition doubled (fuel : nat) (entry : tensor2 A) (spec_length : Z)
  : tensor2 A :=
  match double_spec fuel (py_slice_to entry spec_length) with
  | Some spec => spec
  | None => []
  end.

(** The window of an element cropped at [offset]. *)
Definition window_at (fuel : nat) (entry : tensor2 A) (spec_length : Z)
    (offset : Z) : tensor2 A :=
  py_slice (doubled fuel entry spec_length) offset (offset + window_size).

(** The windows of a batch cropped at the given offsets, one per element. *)
Fixpoint windows_at (fuel : nat) (entries : tensor3 A) (lengths : list Z)
    (offsets : list Z) : tensor3 A :=
  match entries, lengths, offsets with
  | entry :: entries', n :: lengths', r :: offsets' =>
      window_at fuel entry n r :: windows_at fuel entries' lengths' offsets'
  | _, _, _ => []
  end.

End Calling.

(** The offsets of a call, as a recursion over the entries: in batch
    order, an element whose doubled sequence is longer than [window_size]
    takes the next number of the ambient generator, drawn from [[0, d -
    window_size)]; an element whose doubled sequence is not longer takes
    offset 0 and leaves the generator alone. *)
Fixpoint drawn_offsets {A : Type} {G : Type} `{NumpyRandom G}
    (fuel : nat) (entries : tensor3 A) (lengths : list Z) (g : G)
  : list Z * G :=
  match entries, lengths with
  | entry :: entries', n :: lengths' =>
      let d := py_len (doubled fuel entry n) in
      if d >? window_size then
        let (r, g1) := draw g 0 (d - window_size) in
        let (rs, g') := drawn_offsets fuel entries' lengths' g1 in
        (r :: rs, g')
      else
        let (rs, g') := drawn_offsets fuel entries' lengths' g in
        (0 :: rs, g')
  | _, _ => ([], g)
  end.

(** The windows of a batch whose true lengths all exceed
    [window_size / 2], written as a recursion over the entries: for each
    entry, in order, one number drawn from [[0, 2n - window_size)] and the
    slice of two copies of the valid rows that starts there. *)
Fixpoint two_copy_windows {A : Type} {G : Type} `{NumpyRandom G}
    (entries : tensor3 A) (lengths : list Z) (g : G)
  : list (tensor2 A) * G :=
  match entries, lengths with
  | src :: entries', n :: lengths' =>
      let valid := firstn (Z.to_nat n) src in
      let (r, g1) := draw g 0 (2 * n - window_size) in
      let (ws, g') := two_copy_windows entries' lengths' g1 in
      (py_slice (valid ++ valid) r (r + window_size) :: ws, g')
  | _, _ => ([], g)
  end.

(** A generator for tests: a counter; a draw answers [low + counter mod
    (high - low)] and steps the counter. *)
Definition counter_draw (g : Z) (low high : Z) : Z * Z :=
  (low + g mod (high - low), g + 1).

#[export] Program Instance counter_random : NumpyRandom Z :=
  {| draw := counter_draw |}.
Next Obligation.
  unfold counter_draw; simpl.
  assert (0 <= g mod (high - low) < high - low) by (apply Z.mod_pos_bound; lia).
  lia.
Qed.

(** Test data: [rows] rows, row [i] holding [cols] times the number [i]. *)
Definition ramp (rows cols : nat) : tensor2 Z :=
  map (fun i => repeat (Z.of_nat i) cols) (seq 0 rows).

End StyleEmbedding.

Module LogSTFTMagnitudeLoss.

Local Open Scope R_scope.

(** A tensor is the list of its entries in storage order; the real numbers
    stand for the floating-point entries.  The docstring gives both
    arguments of [forward] the shape [(B, #frames, #freq_bins)], and the
    magnitudes are positive: the properties below are stated for tensors
    of as many entries, all positive.  (Elsewhere torch broadcasts or
    raises, and answers NaN or -inf for the logarithm; [ln] and [abs_diff]
    are not meant there.) *)
Definition tensor : Type := list R.

(** [torch.log]: entry by entry. *)
Definition torch_log (t : tensor) : tensor := map ln t.

(** [|input - target|], entry by entry. *)
Fixpoint abs_diff (input target : tensor) : tensor :=
  match input, target with
  | a :: input', b :: target' => Rabs (a - b) :: abs_diff input' target'
  | _, _ => []
  end.

Definition torch_sum (t : tensor) : R := fold_right Rplus 0 t.

(** [t.mean()]: the sum over the number of entries; a tensor without
    entries has no mean (torch answers NaN), which is [None]. *)
Definition torch_mean (t : tensor) : option R :=
  match t with
  | [] => None
  | _ :: _ => Some (torch_sum t / INR (length t))
  end.

(** [F.l1_loss(input, target)] with its default reduction ['mean']. *)
Definition l1_loss (input target : tensor) : option R :=
  torch_mean (abs_diff input target).

(** Line 32: [F.l1_loss(torch.log(y_mag), torch.log(x_mag))]. *)
Definition forward (x_mag y_mag : tensor) : option R :=
  l1_loss (torch_log y_mag) (torch_log x_mag).

(** The loss in the words of the specification: the mean, over all entry
    positions, of the absolute difference between [log(y_mag)] and
    [log(x_mag)] at that position; nothing when there is no position. *)
Definition sum_over (n : nat) (f : nat -> R) : R :=
  fold_right (fun i acc => f i + acc) 0 (seq 0 n).

Definition log_magnitude_l1 (x_mag y_mag : tensor) : option R :=
  let n := length x_mag in
  if Nat.eqb n 0 then None
  else Some (sum_over n (fun i => Rabs (ln (nth i y_mag 0) - ln (nth i x_mag 0)))
             / INR n).

Definition positive_entries (t : tensor) : Prop := Forall (fun v => 0 < v) t.

End LogSTFTMagnitudeLoss.

Module LogSTFTMagnitudeLossIEEE.

Local Open Scope R_scope.

(** The same function over floating-point values with the special values
    of IEEE 754: an entry is a finite number, one of the two infinities,
    or NaN.  The special values follow the standard; between finite
    numbers the arithmetic is exact (rounding and overflow are left out,
    and the two zeros are one). *)
Inductive float : Type :=
| Finite (r : R)
| PosInf
| NegInf
| NaN.

Definition tensor : Type := list float.

(** [log]: a finite number for a positive finite one, [-inf] at 0, NaN
    below 0, [inf] at [inf]. *)
Definition flog (v : float) : float :=
  match v with
  | Finite r =>
      if Rlt_dec 0 r then Finite (ln r)
      else if Rlt_dec r 0 then NaN else NegInf
  | PosInf => PosInf
  | NegInf => NaN
  | NaN => NaN
  end.

(** [a - b]: [inf - inf] is NaN. *)
Definition fsub (a b : float) : float :=
  match a, b with
  | NaN, _ => NaN
  | _, NaN => NaN
  | Finite x, Finite y => Finite (x - y)
  | Finite _, PosInf => NegInf
  | Finite _, NegInf => PosInf
  | PosInf, PosInf => NaN
  | PosInf, _ => PosInf
  | NegInf, NegInf => NaN
  | NegInf, _ => NegInf
  end.

(** [a + b]: [inf + -inf] is NaN. *)
Definition fadd (a b : float) : float :=
  match a, b with
  | NaN, _ => NaN
  | _, NaN => NaN
  | Finite x, Finite y => Finite (x + y)
  | PosInf, NegInf => NaN
  | NegInf, PosInf => NaN
  | PosInf, _ => PosInf
  | _, PosInf => PosInf
  | NegInf, _ => NegInf
  | _, NegInf => NegInf
  end.

Definition fabs (a : float) : float :=
  match a with
  | Finite x => Finite (Rabs x)
  | PosInf => PosInf
  | NegInf => PosInf
  | NaN => NaN
  end.

(** [a / n] for a number of entries [n]: [0 / 0] is NaN. *)
Definition fdiv_count (a : float) (n : nat) : float :=
  match a with
  | Finite r =>
      match n with
      | O => if Rlt_dec 0 r then PosInf
             else if Rlt_dec r 0 then NegInf else NaN
      | S _ => Finite (r / INR n)
      end
  | PosInf => PosInf
  | NegInf => NegInf
  | NaN => NaN
  end.

Definition torch_log (t : tensor) : tensor := map flog t.

Fixpoint abs_diff (input target : tensor) : tensor :=
  match input, target with
  | a :: input', b :: target' => fabs (fsub a b) :: abs_diff input' target'
  | _, _ => []
  end.

Definition torch_sum (t : tensor) : float := fold_right fadd (Finite 0) t.

(** [t.mean()]: the sum over the number of entries; NaN for a tensor
    without entries. *)
Definition torch_mean (t : tensor) : float :=
  fdiv_count (torch_sum t) (length t).

Definition l1_loss (input target : tensor) : float :=
  torch_mean (abs_diff input target).

(** Line 32: [F.l1_loss(torch.log(y_mag), torch.log(x_mag))]. *)
Definition forward (x_mag y_mag : tensor) : float :=
  l1_loss (torch_log y_mag) (torch_log x_mag).

(** A strictly positive entry: a positive finite number or [inf]. *)
Definition positive (v : float) : Prop :=
  match v with
  | Finite r => 0 < r
  | PosInf => True
  | NegInf => False
  | NaN => False
  end.

Definition finite (v : float) : Prop :=
  match v with
  | Finite _ => True
  | _ => False
  end.

Definition positive_entries (t : tensor) : Prop := Forall positive t.
Definition finite_entries (t : tensor) : Prop := Forall finite t.

End LogSTFTMagnitudeLossIEEE.

(* ================================================================== *)
(** * Part II: properties of [StyleEmbedding.forward] *)
(* ================================================================== *)

Import StyleEmbedding.

Local Open Scope Z_scope.

(** ** Lists: repetition and slices *)

Section ListFacts.

Context {T : Type}.

Lemma copies_add (j k : nat) (l : list T) :
  copies (j + k) l = copies j l ++ copies k l.
Proof.
  unfold copies. rewrite repeat_app, concat_app. reflexivity.
Qed.

Lemma copies_twice (k : nat) (l : list T) :
  copies k (l ++ l) = copies (2 * k) l.
Proof.
  induction k as [|k IH].
  - reflexivity.
  - replace (2 * S k)%nat with (2 + 2 * k)%nat by lia.
    rewrite (copies_add 2 (2 * k)). rewrite <- IH.
    unfold copies. simpl. rewrite app_nil_r. reflexivity.
Qed.

Lemma length_copies (k : nat) (l : list T) :
  length (copies k l) = (k * length l)%nat.
Proof.
  induction k as [|k IH]; [reflexivity|].
  change (S k) with (1 + k)%nat. rewrite copies_add, length_app, IH.
  unfold copies. simpl. rewrite app_nil_r. lia.
Qed.

(** Row [j] of [k] copies of [l] is row [j mod length l] of [l]. *)
Lemma nth_error_copies (k : nat) (l : list T) (j : nat) :
  (j < k * length l)%nat ->
  nth_error (copies k l) j = nth_error l (j mod length l).
Proof.
  revert j. induction k as [|k IH]; intros j Hj; [lia|].
  change (S k) with (1 + k)%nat. rewrite copies_add.
  assert (H1 : copies 1 l = l) by (unfold copies; simpl; apply app_nil_r).
  rewrite H1.
  destruct (Nat.lt_ge_cases j (length l)) as [Hlt|Hge].
  - rewrite nth_error_app1 by assumption.
    rewrite Nat.mod_small by assumption. reflexivity.
  - rewrite nth_error_app2 by assumption.
    rewrite IH by lia.
    f_equal.
    replace j with ((j - length l) + 1 * length l)%nat at 2 by lia.
    rewrite Nat.Div0.mod_add. reflexivity.
Qed.

Lemma adjust_bound_inside (i len : Z) :
  0 <= i <= len -> adjust_bound i len = i.
Proof.
  intros Hi. unfold adjust_bound.
  destruct (i <? 0) eqn:E.
  - apply Z.ltb_lt in E. lia.
  - lia.
Qed.

(** A slice whose bounds lie inside the list. *)
Lemma py_slice_inside (t : list T) (lo hi : Z) :
  0 <= lo <= hi -> hi <= py_len t ->
  py_slice t lo hi = firstn (Z.to_nat (hi - lo)) (skipn (Z.to_nat lo) t).
Proof.
  intros H1 H2. unfold py_slice.
  rewrite !adjust_bound_inside by lia. reflexivity.
Qed.

Lemma length_py_slice_inside (t : list T) (lo hi : Z) :
  0 <= lo <= hi -> hi <= py_len t ->
  py_len (py_slice t lo hi) = hi - lo.
Proof.
  intros H1 H2. rewrite py_slice_inside by assumption.
  unfold py_len in *. rewrite length_firstn, length_skipn. lia.
Qed.

Lemma nth_error_py_slice_inside (t : list T) (lo hi : Z) (j : nat) :
  0 <= lo <= hi -> hi <= py_len t ->
  (j < Z.to_nat (hi - lo))%nat ->
  nth_error (py_slice t lo hi) j = nth_error t (Z.to_nat lo + j).
Proof.
  intros H1 H2 Hj. rewrite py_slice_inside by assumption.
  rewrite nth_error_firstn.
  destruct (Nat.ltb_spec j (Z.to_nat (hi - lo))); [|lia].
  apply nth_error_skipn.
Qed.

(** [t[:n]] for [0 <= n <= len(t)] keeps the first [n] entries. *)
Lemma py_slice_to_inside (t : list T) (n : Z) :
  0 <= n <= py_len t -> py_slice_to t n = firstn (Z.to_nat n) t.
Proof.
  intros Hn. unfold py_slice_to. rewrite py_slice_inside by lia.
  simpl. rewrite Z.sub_0_r. reflexivity.
Qed.

(** [t[:n]] for [n] past the end is all of [t]. *)
Lemma py_slice_to_clipped (t : list T) (n : Z) :
  py_len t <= n -> py_slice_to t n = t.
Proof.
  intros Hn. unfold py_slice_to, py_slice, adjust_bound, py_len in *.
  simpl.
  destruct (n <? 0) eqn:E; [apply Z.ltb_lt in E; lia|].
  rewrite (Z.min_r n) by lia. rewrite (Z.min_l 0) by lia.
  rewrite Z.sub_0_r, Nat2Z.id. apply firstn_all.
Qed.

End ListFacts.

(** ** The doubling step (lines 48-53) *)

Section Doubling.

Context {A : Type}.
Implicit Types spec d out : tensor2 A.

Lemma tensor_repeat_2_1 spec : tensor_repeat 2 1 spec = spec ++ spec.
Proof.
  unfold tensor_repeat. simpl. rewrite app_nil_r.
  assert (E : map (fun row : list A => row ++ []) spec = spec).
  { induction spec as [|row rest IH]; simpl; [reflexivity|].
    rewrite app_nil_r, IH. reflexivity. }
  rewrite E. reflexivity.
Qed.

Lemma py_len_app {T : Type} (l1 l2 : list T) :
  py_len (l1 ++ l2) = py_len l1 + py_len l2.
Proof. unfold py_len. rewrite length_app. lia. Qed.

Lemma py_len_copies {T : Type} (k : nat) (l : list T) :
  py_len (copies k l) = Z.of_nat k * py_len l.
Proof. unfold py_len. rewrite length_copies. lia. Qed.

Lemma copies_1 {T : Type} (l : list T) : copies 1 l = l.
Proof. unfold copies. simpl. apply app_nil_r. Qed.

(** What the loop returns: [2^m] copies of what it was given, where [m]
    is the first exponent at which the length reaches [window_size]. *)
Lemma while_too_short_result (fuel : nat) d out :
  while_too_short fuel d = Some out ->
  exists m : nat,
    (m < fuel)%nat /\
    out = copies (2 ^ m) d /\
    window_size <= py_len out /\
    (forall i, (i < m)%nat -> py_len (copies (2 ^ i) d) < window_size).
Proof.
  revert d. induction fuel as [|fuel IH]; intros d Hrun; [discriminate|].
  simpl in Hrun.
  destruct (py_len d <? window_size) eqn:Hshort.
  - apply Z.ltb_lt in Hshort.
    rewrite tensor_repeat_2_1 in Hrun.
    destruct (IH _ Hrun) as (m & Hm & Hout & Hlen & Hearlier).
    exists (S m). split; [|split; [|split]].
    + lia.
    + rewrite Hout, copies_twice. f_equal; simpl; lia.
    + assumption.
    + intros [|i] Hi.
      * simpl. rewrite copies_1. assumption.
      * replace (2 ^ S i)%nat with (2 * 2 ^ i)%nat by (simpl; lia).
        rewrite <- copies_twice. apply Hearlier. lia.
  - apply Z.ltb_ge in Hshort. inversion Hrun; subst out.
    exists 0%nat. split; [|split; [|split]].
    + lia.
    + simpl. rewrite copies_1. reflexivity.
    + assumption.
    + intros i Hi. lia.
Qed.

(** The loop is left as soon as the fuel covers the doublings needed. *)
Lemma while_too_short_terminates (f : nat) d :
  window_size <= py_len d * 2 ^ Z.of_nat f ->
  exists out, while_too_short (S f) d = Some out.
Proof.
  revert d. induction f as [|f IH]; intros d Hbound.
  - simpl in *. destruct (py_len d <? window_size) eqn:Hshort.
    + apply Z.ltb_lt in Hshort. lia.
    + eauto.
  - cbn [while_too_short].
    destruct (py_len d <? window_size) eqn:Hshort; [|eauto].
    apply IH. rewrite tensor_repeat_2_1, py_len_app.
    rewrite Nat2Z.inj_succ, Z.pow_succ_r in Hbound by lia. lia.
Qed.

(** More fuel does not change a result. *)
Lemma while_too_short_more_fuel (fuel fuel' : nat) d out :
  while_too_short fuel d = Some out ->
  (fuel <= fuel')%nat ->
  while_too_short fuel' d = Some out.
Proof.
  revert fuel' d. induction fuel as [|fuel IH]; intros fuel' d Hrun Hle;
    [discriminate|].
  destruct fuel' as [|fuel']; [lia|].
  simpl in *. destruct (py_len d <? window_size); [|assumption].
  apply IH; [assumption|lia].
Qed.

(** Nothing doubles to something: on a sequence without rows the loop
    never exits. *)
Lemma while_too_short_empty (fuel : nat) :
  while_too_short fuel (@nil (list A)) = None.
Proof.
  induction fuel as [|fuel IH]; [reflexivity|].
  simpl. exact IH.
Qed.

Lemma double_spec_empty (fuel : nat) :
  double_spec fuel (@nil (list A)) = None.
Proof. unfold double_spec. apply while_too_short_empty. Qed.

(** The doubling step on a sequence of at least one row. *)
Lemma double_spec_spec (fuel : nat) spec :
  1 <= py_len spec -> (8 <= fuel)%nat ->
  exists out (m : nat),
    double_spec fuel spec = Some out /\
    (1 <= m <= 8)%nat /\
    out = copies (2 ^ m) spec /\
    window_size <= py_len out /\
    (m = 1%nat \/ py_len out < 2 * window_size).
Proof.
  intros Hlen Hfuel. unfold double_spec. rewrite tensor_repeat_2_1.
  destruct (while_too_short_terminates 7 (spec ++ spec)) as [out Hrun].
  { rewrite py_len_app. change (2 ^ Z.of_nat 7) with 128.
    unfold window_size. lia. }
  destruct (while_too_short_result _ _ _ Hrun) as (m & Hm & Hout & Hge & Hearlier).
  exists out, (S m). split; [|split; [|split; [|split]]].
  - eapply while_too_short_more_fuel; [exact Hrun|lia].
  - lia.
  - rewrite Hout, copies_twice. f_equal; simpl; lia.
  - assumption.
  - destruct m as [|m]; [left; reflexivity|right].
    specialize (Hearlier m (Nat.lt_succ_diag_r m)).
    rewrite Hout. rewrite py_len_copies in *.
    replace (2 ^ S m)%nat with (2 * 2 ^ m)%nat by (simpl; lia). lia.
Qed.

End Doubling.

(** ** Running programs *)

Section Running.

Context {G : Type} `{RNG : NumpyRandom G}.

Lemma run_bind {X Y : Type} (p : prog X) (f : X -> prog Y) (g : G) :
  run (bind p f) g =
  match run p g with
  | (Returns x, g') => run (f x) g'
  | (Raises e, g') => (Raises e, g')
  | (Diverges, g') => (Diverges, g')
  end.
Proof.
  revert g. induction p as [x|e| |low high k IH]; intros g; simpl;
    try reflexivity.
  destruct (high <=? low); [reflexivity|].
  destruct (draw g low high) as [r g']. apply IH.
Qed.

Lemma run_bind_returns {X Y : Type} (p : prog X) (f : X -> prog Y)
    (g g' : G) (x : X) :
  run p g = (Returns x, g') -> run (bind p f) g = run (f x) g'.
Proof. intros Hp. rewrite run_bind, Hp. reflexivity. Qed.

Lemma run_bind_ext {X Y : Type} (p p' : prog X) (f f' : X -> prog Y) (g : G) :
  run p g = run p' g ->
  (forall x g', run (f x) g' = run (f' x) g') ->
  run (bind p f) g = run (bind p' f') g.
Proof.
  intros Hp Hf. rewrite !run_bind, Hp.
  destruct (run p' g) as [[x|e|] g']; auto.
Qed.

End Running.

(** ** Cropping (lines 54-61) *)

Section Cropping.

Context {A : Type}.
Implicit Types spec : tensor2 A.

Lemma take_window_longer spec :
  window_size < py_len spec ->
  take_window spec =
  Randint 0 (py_len spec - window_size)
    (fun r => Ret (Some (py_slice spec r (r + window_size)))).
Proof.
  intros Hlong. unfold take_window.
  destruct (py_len spec >? window_size) eqn:E; [reflexivity|].
  rewrite Z.gtb_ltb in E. apply Z.ltb_ge in E. lia.
Qed.

Lemma take_window_exact spec :
  py_len spec = window_size -> take_window spec = Ret (Some spec).
Proof.
  intros Hexact. unfold take_window. rewrite Hexact.
  reflexivity.
Qed.

(** A crop at an offset the range allows: [window_size] rows, row [j] of
    the crop being row [r + j] of the sequence. *)
Lemma crop_inside spec (r : Z) :
  window_size < py_len spec ->
  0 <= r < py_len spec - window_size ->
  r + window_size <= py_len spec /\
  py_len (py_slice spec r (r + window_size)) = window_size /\
  forall j, (j < Z.to_nat window_size)%nat ->
    nth_error (py_slice spec r (r + window_size)) j
    = nth_error spec (Z.to_nat r + j).
Proof.
  intros Hlong Hr.
  assert (Hw : 0 <= window_size) by (unfold window_size; lia).
  split; [lia|split].
  - rewrite length_py_slice_inside by lia. lia.
  - intros j Hj. apply nth_error_py_slice_inside; lia.
Qed.

End Cropping.

(** ** One iteration of the loop (lines 46-61) *)

Section Iteration.

Context {A : Type} {G : Type} `{RNG : NumpyRandom G}.
Implicit Types (src spec w : tensor2 A) (batch : tensor3 A).

Lemma py_len_firstn_inside src (n : Z) :
  0 <= n <= py_len src -> py_len (firstn (Z.to_nat n) src) = n.
Proof. unfold py_len. intros Hn. rewrite length_firstn. lia. Qed.

(** Rows read at offset [r] from copies of the valid rows are rows of the
    source at the indices [(r + j) mod n]. *)
Lemma cyclic_window_of_copies src (n k r : nat) w :
  (1 <= n <= length src)%nat ->
  (r + Z.to_nat window_size <= length (copies k (firstn n src)))%nat ->
  length w = Z.to_nat window_size ->
  (forall j, (j < Z.to_nat window_size)%nat ->
     nth_error w j = nth_error (copies k (firstn n src)) (r + j)) ->
  cyclic_window src n r w.
Proof.
  intros Hn Hfit Hlen Hrows. split; [assumption|].
  intros j Hj.
  assert (Hmod : ((r + j) mod n < n)%nat) by (apply Nat.mod_upper_bound; lia).
  split; [assumption|].
  assert (Hfirst : length (firstn n src) = n) by (rewrite length_firstn; lia).
  rewrite Hrows by assumption.
  rewrite nth_error_copies by (rewrite <- length_copies; lia).
  rewrite Hfirst. rewrite nth_error_firstn.
  destruct (Nat.ltb_spec ((r + j) mod n) n); [reflexivity|lia].
Qed.

(** On a valid entry the iteration is the crop of [2^m] copies of the
    valid rows, [m] being the number of doublings. *)
Lemma loop_body_valid (fuel : nat) batch (index : nat) (n : Z) src :
  (8 <= fuel)%nat ->
  nth_error batch index = Some src ->
  1 <= n <= py_len src ->
  exists m : nat,
    (1 <= m <= 8)%nat /\
    loop_body fuel batch index n
    = take_window (copies (2 ^ m) (firstn (Z.to_nat n) src)) /\
    window_size <= py_len (copies (2 ^ m) (firstn (Z.to_nat n) src)) /\
    (m = 1%nat \/
     py_len (copies (2 ^ m) (firstn (Z.to_nat n) src)) < 2 * window_size).
Proof.
  intros Hfuel Hentry Hn. unfold loop_body. rewrite Hentry.
  rewrite py_slice_to_inside by lia.
  destruct (double_spec_spec fuel (firstn (Z.to_nat n) src))
    as (out & m & Hrun & Hm & Hout & Hge & Hmin);
    [rewrite py_len_firstn_inside; lia|assumption|].
  exists m. rewrite Hrun, <- Hout. auto.
Qed.

(** Running the crop of copies of the valid rows: it returns a window
    read cyclically from the valid rows; the offset is [0] when nothing
    is drawn, and the number drawn from [[0, d - window_size)] else. *)
Lemma run_take_window_copies src (n k : nat) (g : G) :
  (1 <= n <= length src)%nat ->
  window_size <= py_len (copies k (firstn n src)) ->
  exists w (r : nat) (g' : G),
    run (take_window (copies k (firstn n src))) g = (Returns (Some w), g') /\
    cyclic_window src n r w /\
    Z.of_nat r <= py_len (copies k (firstn n src)) - window_size.
Proof.
  intros Hn Hge. set (d := copies k (firstn n src)) in *.
  assert (Hw : Z.to_nat window_size = 256%nat) by reflexivity.
  destruct (Z.eq_dec (py_len d) window_size) as [Hexact|Hneq].
  - exists d, 0%nat, g. rewrite take_window_exact by assumption.
    split; [reflexivity|]. split; [|lia].
    apply cyclic_window_of_copies with (k := k); fold d;
      unfold py_len in *; try lia.
    intros j Hj. reflexivity.
  - assert (Hlong : window_size < py_len d) by lia.
    rewrite take_window_longer by assumption. simpl.
    destruct (py_len d - window_size <=? 0) eqn:E;
      [apply Z.leb_le in E; lia|].
    pose proof (draw_in_range g 0 (py_len d - window_size)) as Hrange.
    destruct (draw g 0 (py_len d - window_size)) as [r g'].
    simpl in Hrange. specialize (Hrange ltac:(lia)).
    destruct (crop_inside d r Hlong Hrange) as (Hfit & Hlen & Hrows).
    exists (py_slice d r (r + window_size)), (Z.to_nat r), g'.
    split; [reflexivity|]. split; [|lia].
    apply cyclic_window_of_copies with (k := k); fold d;
      unfold py_len in *; try lia.
    exact Hrows.
Qed.

Lemma run_loop_body (fuel : nat) batch (index : nat) (n : Z) src (g : G) :
  (8 <= fuel)%nat ->
  nth_error batch index = Some src ->
  1 <= n <= py_len src ->
  exists w (r : nat) (g' : G),
    run (loop_body fuel batch index n) g = (Returns (Some w), g') /\
    cyclic_window src (Z.to_nat n) r w.
Proof.
  intros Hfuel Hentry Hn.
  destruct (loop_body_valid fuel batch index n src Hfuel Hentry Hn)
    as (m & _ & Hbody & Hge & _).
  destruct (run_take_window_copies src (Z.to_nat n) (2 ^ m) g)
    as (w & r & g' & Hrun & Hcyc & _);
    [unfold py_len in *; lia|assumption|].
  exists w, r, g'. rewrite Hbody. auto.
Qed.

(** The iteration reads the entry below its true length only. *)
Lemma loop_body_same_valid_rows (fuel : nat) batch batch' (index : nat)
    (n : Z) src src' :
  nth_error batch index = Some src ->
  nth_error batch' index = Some src' ->
  0 <= n <= py_len src -> n <= py_len src' ->
  firstn (Z.to_nat n) src' = firstn (Z.to_nat n) src ->
  loop_body fuel batch' index n = loop_body fuel batch index n.
Proof.
  intros Hentry Hentry' Hn Hn' Hsame. unfold loop_body.
  rewrite Hentry, Hentry'. rewrite !py_slice_to_inside by lia.
  rewrite Hsame. reflexivity.
Qed.

End Iteration.

(** ** The whole loop and the stacking (lines 44-63) *)

Section Batch.

Context {A : Type} {G : Type} `{RNG : NumpyRandom G}.
Implicit Types (src spec w : tensor2 A) (batch : tensor3 A).

Lemma map_length_has_shape2 (rows cols : nat) w :
  has_shape2 rows cols w -> map (@length A) w = repeat cols rows.
Proof.
  intros [Hrows Hcols]. subst rows.
  induction Hcols as [|row rest Hrow _ IH]; simpl; [reflexivity|].
  rewrite Hrow, IH. reflexivity.
Qed.

Lemma same_size_has_shape2 (rows cols : nat) w w' :
  has_shape2 rows cols w -> has_shape2 rows cols w' -> same_size w w' = true.
Proof.
  intros Hw Hw'. unfold same_size.
  rewrite (map_length_has_shape2 _ _ _ Hw), (map_length_has_shape2 _ _ _ Hw').
  destruct (list_eq_dec Nat.eq_dec (repeat cols rows) (repeat cols rows));
    [reflexivity|contradiction].
Qed.

(** [torch.stack] accepts a non-empty list of tensors of one shape. *)
Lemma torch_stack_same_shape (rows cols : nat) (ws : list (tensor2 A)) :
  ws <> [] -> Forall (has_shape2 rows cols) ws -> torch_stack ws = Ret ws.
Proof.
  intros Hne Hall. destruct ws as [|w rest]; [contradiction|].
  simpl. inversion Hall as [|? ? Hw Hrest]; subst.
  assert (E : forallb (same_size w) rest = true).
  { apply forallb_forall. intros w' Hin.
    rewrite Forall_forall in Hrest.
    eapply same_size_has_shape2; eauto. }
  rewrite E. reflexivity.
Qed.

(** A window read from the rows of the source has the width of the
    source. *)
Lemma cyclic_window_shape src (n r cols : nat) w :
  cyclic_window src n r w ->
  Forall (fun row => length row = cols) src ->
  has_shape2 (Z.to_nat window_size) cols w.
Proof.
  intros [Hlen Hrows] Hsrc. split; [assumption|].
  apply Forall_forall. intros row Hin.
  destruct (In_nth_error _ _ Hin) as [j Hj].
  assert (Hlt : (j < Z.to_nat window_size)%nat).
  { rewrite <- Hlen. apply nth_error_Some. congruence. }
  destruct (Hrows j Hlt) as [_ Hrow]. rewrite Hj in Hrow.
  rewrite Forall_forall in Hsrc. apply Hsrc.
  eapply nth_error_In. symmetry. exact Hrow.
Qed.

(** The loop over valid entries: one window per length, in order. *)
Lemma run_for_loop (fuel : nat) batch :
  (8 <= fuel)%nat ->
  forall (lengths : list Z) (index : nat) (acc : list (tensor2 A)) (g : G),
    (forall i n, nth_error lengths i = Some n ->
       exists src, nth_error batch (index + i) = Some src /\
                   1 <= n <= py_len src) ->
    exists ws (g' : G),
      run (for_loop fuel batch index lengths acc) g = (Returns (acc ++ ws), g') /\
      length ws = length lengths /\
      forall i n src,
        nth_error lengths i = Some n ->
        nth_error batch (index + i) = Some src ->
        exists w (r : nat),
          nth_error ws i = Some w /\ cyclic_window src (Z.to_nat n) r w.
Proof.
  intros Hfuel lengths.
  induction lengths as [|n rest IH]; intros index acc g Hvalid.
  - exists [], g. simpl. rewrite app_nil_r. split; [reflexivity|].
    split; [reflexivity|]. intros [|i] ? ? Hi; discriminate.
  - destruct (Hvalid 0%nat n eq_refl) as (src & Hentry & Hn).
    rewrite Nat.add_0_r in Hentry.
    destruct (run_loop_body fuel batch index n src g Hfuel Hentry Hn)
      as (w & r & g1 & Hbody & Hcyc).
    destruct (IH (S index) (acc ++ [w]) g1) as (ws & g' & Hrun & Hlen & Hws).
    { intros i m Hi. specialize (Hvalid (S i) m Hi).
      rewrite Nat.add_succ_r in Hvalid. exact Hvalid. }
    exists (w :: ws), g'. split; [|split].
    + cbn [for_loop]. rewrite (run_bind_returns _ _ _ _ _ Hbody).
      rewrite Hrun, <- app_assoc. reflexivity.
    + simpl. rewrite Hlen. reflexivity.
    + intros [|i] m src' Hi Hsrc'.
      * simpl in Hi. inversion Hi; subst m.
        rewrite Nat.add_0_r in Hsrc'. rewrite Hentry in Hsrc'.
        inversion Hsrc'; subst src'. exists w, r. split; [reflexivity|assumption].
      * simpl in Hi. rewrite Nat.add_succ_r in Hsrc'.
        apply (Hws i m src' Hi Hsrc').
Qed.

(** The loop does not look at the padding. *)
Lemma run_for_loop_same_valid_rows (fuel : nat) batch batch' :
  length batch' = length batch ->
  forall (lengths : list Z) (index : nat) (acc : list (tensor2 A)) (g : G),
    (forall i n src src',
       nth_error lengths i = Some n ->
       nth_error batch (index + i) = Some src ->
       nth_error batch' (index + i) = Some src' ->
       0 <= n <= py_len src /\ n <= py_len src' /\
       firstn (Z.to_nat n) src' = firstn (Z.to_nat n) src) ->
    run (for_loop fuel batch' index lengths acc) g
    = run (for_loop fuel batch index lengths acc) g.
Proof.
  intros Hsize lengths.
  induction lengths as [|n rest IH]; intros index acc g Hsame;
    [reflexivity|].
  cbn [for_loop]. apply run_bind_ext.
  - f_equal.
    destruct (nth_error batch index) as [src|] eqn:Hentry;
      destruct (nth_error batch' index) as [src'|] eqn:Hentry'.
    + destruct (Hsame 0%nat n src src' eq_refl) as (Hn & Hn' & Hrows);
        rewrite ?Nat.add_0_r; try assumption.
      eapply loop_body_same_valid_rows; eauto.
    + apply nth_error_None in Hentry'.
      assert (nth_error batch index <> None) by congruence.
      apply nth_error_Some in H. lia.
    + apply nth_error_None in Hentry.
      assert (nth_error batch' index <> None) by congruence.
      apply nth_error_Some in H. lia.
    + unfold loop_body. rewrite Hentry, Hentry'. reflexivity.
  - intros appended g1. apply IH.
    intros i m src src' Hi Hsrc Hsrc'.
    apply (Hsame (S i) m src src'); rewrite ?Nat.add_succ_r; assumption.
Qed.

Lemma valid_input_entry (N L_max F : nat) batch (lengths : list Z)
    (i : nat) (n : Z) :
  valid_input N L_max F batch lengths ->
  nth_error lengths i = Some n ->
  exists src, nth_error batch i = Some src /\
              1 <= n <= py_len src /\
              has_shape2 L_max F src.
Proof.
  intros ((Hsize & Hshape) & Hlen & Hrange) Hi.
  assert (Hlt : (i < length batch)%nat).
  { rewrite Hsize, <- Hlen. apply nth_error_Some. congruence. }
  destruct (nth_error batch i) as [src|] eqn:Hentry;
    [|apply nth_error_None in Hentry; lia].
  exists src. split; [reflexivity|].
  rewrite Forall_forall in Hshape, Hrange.
  pose proof (Hshape src (nth_error_In _ _ Hentry)) as Hsrc.
  pose proof (Hrange n (nth_error_In _ _ Hi)) as Hn.
  destruct Hsrc as [Hrows Hcols].
  split; [unfold py_len; lia|split; assumption].
Qed.

(** The windowing stage on a valid, non-empty batch. *)
Lemma run_unified_length (fuel N L_max F : nat) batch (lengths : list Z)
    (g : G) :
  (8 <= fuel)%nat -> (1 <= N)%nat ->
  valid_input N L_max F batch lengths ->
  exists stacked (g' : G),
    run (unified_length fuel batch lengths) g = (Returns stacked, g') /\
    has_shape3 N (Z.to_nat window_size) F stacked /\
    forall i n src,
      nth_error lengths i = Some n ->
      nth_error batch i = Some src ->
      exists w (r : nat),
        nth_error stacked i = Some w /\ cyclic_window src (Z.to_nat n) r w.
Proof.
  intros Hfuel HN Hvalid.
  destruct (run_for_loop fuel batch Hfuel lengths 0%nat [] g)
    as (ws & g' & Hrun & Hlen & Hws).
  { intros i n Hi.
    destruct (valid_input_entry _ _ _ _ _ _ _ Hvalid Hi)
      as (src & Hentry & Hn & _).
    exists src. split; assumption. }
  simpl in Hrun.
  assert (Hshapes : Forall (has_shape2 (Z.to_nat window_size) F) ws).
  { apply Forall_forall. intros w Hin.
    destruct (In_nth_error _ _ Hin) as [i Hi].
    assert (Hlt : (i < length lengths)%nat).
    { rewrite <- Hlen. apply nth_error_Some. congruence. }
    destruct (nth_error lengths i) as [n|] eqn:Hn;
      [|apply nth_error_None in Hn; lia].
    destruct (valid_input_entry _ _ _ _ _ _ _ Hvalid Hn)
      as (src & Hentry & _ & _ & Hcols).
    destruct (Hws i n src Hn Hentry) as (w' & r & Hw' & Hcyc).
    rewrite Hi in Hw'. inversion Hw'; subst w'.
    eapply cyclic_window_shape; eauto. }
  assert (HlenN : length ws = N).
  { destruct Hvalid as (_ & HlenN & _). congruence. }
  exists ws, g'. split; [|split].
  - unfold unified_length. rewrite (run_bind_returns _ _ _ _ _ Hrun).
    rewrite (torch_stack_same_shape (Z.to_nat window_size) F);
      [reflexivity| |assumption].
    intros ->. simpl in HlenN. lia.
  - split; assumption.
  - intros i n src Hn Hentry. apply (Hws i n src Hn Hentry).
Qed.

End Batch.

(** ** The claims about the doubling and the crop *)

Section CropClaims.

Context {A : Type} {G : Type} `{RNG : NumpyRandom G}.
Implicit Types (src spec w : tensor2 A) (batch : tensor3 A).

Lemma distribution_take_window_longer spec :
  window_size < py_len spec ->
  distribution (take_window spec)
  = map (fun r => (Qdiv 1 (inject_Z (py_len spec - window_size)),
                   Returns (Some (py_slice spec r (r + window_size)))))
        (py_range 0 (py_len spec - window_size)).
Proof.
  intros Hlong. rewrite take_window_longer by assumption.
  cbn [distribution].
  destruct (py_len spec - window_size <=? 0) eqn:E;
    [apply Z.leb_le in E; lia|].
  rewrite Z.sub_0_r.
  induction (py_range 0 (py_len spec - window_size)) as [|r rest IH];
    [reflexivity|].
  simpl. simpl in IH. rewrite IH. reflexivity.
Qed.

Lemma run_take_window_longer spec (g : G) :
  window_size < py_len spec ->
  run (take_window spec) g
  = (Returns (Some (py_slice spec (fst (draw g 0 (py_len spec - window_size)))
                      (fst (draw g 0 (py_len spec - window_size))
                       + window_size))),
     snd (draw g 0 (py_len spec - window_size))).
Proof.
  intros Hlong. rewrite take_window_longer by assumption. simpl.
  destruct (py_len spec - window_size <=? 0) eqn:E;
    [apply Z.leb_le in E; lia|].
  destruct (draw g 0 (py_len spec - window_size)) as [r g']. reflexivity.
Qed.

Lemma in_py_range (low high r : Z) :
  In r (py_range low high) <-> low <= r < high.
Proof.
  unfold py_range. rewrite in_map_iff. split.
  - intros (i & Hi & Hin). apply in_seq in Hin. lia.
  - intros Hr. exists (Z.to_nat (r - low)). split; [lia|].
    apply in_seq. lia.
Qed.

End CropClaims.

(** C4.  For every true length [n >= 1] the doubling step (one doubling,
    then doubling while the length is below [window_size]) terminates:
    with fuel for eight tests of the loop condition, and with any more, it
    returns [2^m] copies of the sequence for some [1 <= m <= 8], of length
    [2^m * n >= window_size]; [m] is minimal (either the single
    unconditional doubling, or the previous length was below
    [window_size]).  A sequence of one row ends after the unconditional
    doubling and seven doublings of the loop, as 256 copies of its row. *)
Theorem doubling_terminates {A : Type} (fuel : nat) (spec : tensor2 A) :
  1 <= py_len spec -> (8 <= fuel)%nat ->
  exists out (m : nat),
    double_spec fuel spec = Some out /\
    (1 <= m <= 8)%nat /\
    out = copies (2 ^ m) spec /\
    py_len out = 2 ^ Z.of_nat m * py_len spec /\
    window_size <= py_len out /\
    (m = 1%nat \/ 2 ^ Z.of_nat (m - 1) * py_len spec < window_size) /\
    (py_len spec = 1 -> m = 8%nat /\ py_len out = window_size).
Proof.
  intros Hlen Hfuel.
  destruct (double_spec_spec fuel spec Hlen Hfuel)
    as (out & m & Hrun & Hm & Hout & Hge & Hmin).
  assert (Hpow : Z.of_nat (2 ^ m) = 2 ^ Z.of_nat m).
  { rewrite Nat2Z.inj_pow. reflexivity. }
  assert (Hlen_out : py_len out = 2 ^ Z.of_nat m * py_len spec).
  { rewrite Hout, py_len_copies, Hpow. reflexivity. }
  assert (Hprev : m = 1%nat \/ 2 ^ Z.of_nat (m - 1) * py_len spec < window_size).
  { destruct Hmin as [Hone|Hlt]; [left; assumption|].
    destruct (Nat.eq_dec m 1) as [ -> |Hm1]; [left; reflexivity|right].
    rewrite Hlen_out in Hlt.
    replace (Z.of_nat m) with (Z.succ (Z.of_nat (m - 1))) in Hlt by lia.
    rewrite Z.pow_succ_r in Hlt by lia. lia. }
  exists out, m. repeat (split; [assumption|]).
  intros Hone. rewrite Hone, Z.mul_1_r in *.
  assert (Hm8 : m = 8%nat).
  { destruct Hprev as [ -> |Hlt]; [simpl in Hge; unfold window_size in Hge; lia|].
    assert (Hm' : (m = 1 \/ m = 2 \/ m = 3 \/ m = 4 \/
                   m = 5 \/ m = 6 \/ m = 7 \/ m = 8)%nat) by lia.
    unfold window_size in *.
    destruct Hm' as [ -> | [ -> | [ -> | [ -> | [ -> | [ -> | [ -> | -> ]]]]]]];
      simpl in Hge; try lia. }
  split; [assumption|]. rewrite Hlen_out, Hm8. reflexivity.
Qed.

Lemma doubling_terminates_witness :
  double_spec 8 [[5]] = Some (copies 256 [[5]]).
Proof.
  destruct (doubling_terminates 8 [[5]] ltac:(unfold py_len; simpl; lia)
              ltac:(lia))
    as (out & m & Hrun & _ & Hout & _ & _ & _ & Hone).
  destruct (Hone eq_refl) as [Hm _]. subst m. rewrite Hrun, Hout.
  reflexivity.
Defined.

(** C5.  When the doubled length [d] exceeds [window_size], the offset is
    the number that [numpy.random.randint(low=0, high=d - window_size)]
    returns -- every offset of [[0, d - window_size)] with probability
    [1 / (d - window_size)] -- and the window is the contiguous slice of
    [window_size] rows starting there.  For a single sequence of true
    length 142 (and any feature width [F], 80 in the example) one doubling
    gives 284 rows, the offset [r] lies in [[0, 28)], the stacked result is
    one window of shape [(1, 256, F)], and row [j] of the window is row
    [(r + j) mod 142] of the source. *)
Theorem random_crop_when_longer {A : Type} {G : Type} `{RNG : NumpyRandom G}
    (spec : tensor2 A) (fuel L_max F : nat) (src : tensor2 A) (g : G) :
  window_size < py_len spec ->
  (1 <= fuel)%nat -> has_shape2 L_max F src -> (142 <= L_max)%nat ->
  (let d := py_len spec in
   let r := fst (draw g 0 (d - window_size)) in
   take_window spec
   = Randint 0 (d - window_size)
       (fun r => Ret (Some (py_slice spec r (r + window_size)))) /\
   distribution (take_window spec)
   = map (fun r => (Qdiv 1 (inject_Z (d - window_size)),
                    Returns (Some (py_slice spec r (r + window_size)))))
         (py_range 0 (d - window_size)) /\
   (forall r, In r (py_range 0 (d - window_size)) <-> 0 <= r < d - window_size) /\
   (forall r, 0 <= r < d - window_size ->
      py_slice spec r (r + window_size)
      = firstn (Z.to_nat window_size) (skipn (Z.to_nat r) spec) /\
      py_len (py_slice spec r (r + window_size)) = window_size) /\
   0 <= r < d - window_size /\
   run (take_window spec) g
   = (Returns (Some (py_slice spec r (r + window_size))),
      snd (draw g 0 (d - window_size))))
  /\
  (let valid := firstn 142 src in
   let r := fst (draw g 0 28) in
   let w := py_slice (valid ++ valid) r (r + 256) in
   double_spec fuel (py_slice_to src 142) = Some (valid ++ valid) /\
   py_len (valid ++ valid) = 284 /\
   0 <= r < 28 /\
   run (unified_length fuel [src] [142]) g = (Returns [w], snd (draw g 0 28)) /\
   has_shape3 1 256 F [w] /\
   forall j, (j < 256)%nat ->
     ((Z.to_nat r + j) mod 142 < 142)%nat /\
     nth_error w j = nth_error src ((Z.to_nat r + j) mod 142)).
Proof.
  intros Hlong Hfuel [Hrows Hcols] HL.
  assert (Hw : 0 <= window_size) by (unfold window_size; lia).
  split.
  - cbv zeta.
    pose proof (draw_in_range g 0 (py_len spec - window_size) ltac:(lia))
      as Hrange.
    split; [apply take_window_longer; assumption|].
    split; [apply distribution_take_window_longer; assumption|].
    split; [intros r; apply in_py_range|].
    split; [|split; [assumption|apply run_take_window_longer; assumption]].
    intros r Hr. split.
    + rewrite py_slice_inside by lia. do 2 f_equal. lia.
    + rewrite length_py_slice_inside by lia. lia.
  - cbv zeta.
    set (valid := firstn 142 src).
    assert (Hvalid : length valid = 142%nat)
      by (unfold valid; rewrite length_firstn; lia).
    assert (Hd : py_len (valid ++ valid) = 284)
      by (unfold py_len; rewrite length_app, Hvalid; reflexivity).
    assert (Hdouble : double_spec fuel (py_slice_to src 142)
                      = Some (valid ++ valid)).
    { rewrite py_slice_to_inside by (unfold py_len; lia).
      change (Z.to_nat 142) with 142%nat. fold valid.
      unfold double_spec. rewrite tensor_repeat_2_1.
      destruct fuel as [|fuel]; [lia|]. simpl. rewrite Hd. reflexivity. }
    assert (Hlong' : window_size < py_len (valid ++ valid))
      by (rewrite Hd; reflexivity).
    pose proof (draw_in_range g 0 28 ltac:(lia)) as Hrange.
    set (r := fst (draw g 0 28)) in *.
    set (w := py_slice (valid ++ valid) r (r + 256)).
    destruct (crop_inside (valid ++ valid) r Hlong')
      as (_ & Hlen & Hnth); [rewrite Hd; unfold window_size; lia|].
    change (py_slice (valid ++ valid) r (r + window_size)) with w in Hlen, Hnth.
    assert (Hcyc : cyclic_window src 142 (Z.to_nat r) w).
    { apply cyclic_window_of_copies with (k := 2%nat); fold valid.
      - lia.
      - rewrite length_copies, Hvalid.
        change (Z.to_nat window_size) with 256%nat. lia.
      - unfold py_len in Hlen. unfold window_size in *. lia.
      - intros j Hj. rewrite (Hnth j Hj).
        unfold copies. simpl. rewrite app_nil_r. reflexivity. }
    split; [assumption|]. split; [assumption|]. split; [assumption|].
    split; [|split].
    + unfold unified_length. cbn [for_loop]. unfold loop_body at 1.
      cbn [nth_error]. rewrite Hdouble.
      rewrite !run_bind, run_take_window_longer by assumption.
      rewrite Hd. change (284 - window_size) with 28.
      cbn [run for_loop app]. 
      assert (Hshape : has_shape2 (Z.to_nat window_size) F w)
        by (eapply cyclic_window_shape; eauto).
      rewrite (torch_stack_same_shape (Z.to_nat window_size) F);
        [reflexivity|discriminate|].
      constructor; [exact Hshape|constructor].
    + split; [reflexivity|]. constructor; [|constructor].
      change 256%nat with (Z.to_nat window_size).
      eapply cyclic_window_shape; eauto.
    + intros j Hj. destruct Hcyc as [_ Hcyc]. apply Hcyc. exact Hj.
Qed.

Lemma random_crop_when_longer_witness :
  window_size < py_len (ramp 300 1) /\
  has_shape2 142 80 (ramp 142 80) /\
  run (unified_length 8 [ramp 142 80] [142]) 5
  = (Returns [py_slice (ramp 142 80 ++ ramp 142 80) 5 261], 6).
Proof.
  assert (H1 : window_size < py_len (ramp 300 1)) by reflexivity.
  assert (H3 : has_shape2 142 80 (ramp 142 80))
    by (split; [reflexivity|repeat constructor]).
  split; [exact H1|]. split; [exact H3|].
  destruct (random_crop_when_longer (ramp 300 1) 8 142 80 (ramp 142 80) 5
              H1 ltac:(lia) H3 ltac:(lia))
    as [_ (_ & _ & _ & Hrun & _)].
  exact Hrun.
Defined.

(** C6.  When the doubled length equals [window_size] the sequence is
    appended as it is, on a branch of its own that asks for no random
    number: the iteration is a plain return, its only result (probability
    1) is the unmodified sequence, the generator state is left as it was
    and nothing is raised (a draw from the range [[0, 0)] would have
    raised [ValueError]).  A true length of 128 ([window_size / 2]) gets
    there by the single unconditional doubling. *)
Theorem exact_length_taken_as_is {A : Type} {G : Type} `{RNG : NumpyRandom G}
    (spec : tensor2 A) (fuel : nat) (batch : tensor3 A) (index : nat)
    (src : tensor2 A) (g : G) :
  py_len spec = window_size ->
  (1 <= fuel)%nat -> nth_error batch index = Some src -> 128 <= py_len src ->
  (take_window spec = Ret (Some spec) /\
   distribution (take_window spec) = [(1%Q, Returns (Some spec))] /\
   run (take_window spec) g = (Returns (Some spec), g) /\
   run (randint 0 (py_len spec - window_size)) g = (Raises ValueError, g))
  /\
  (let valid := firstn 128 src in
   double_spec fuel (py_slice_to src 128) = Some (valid ++ valid) /\
   py_len (valid ++ valid) = window_size /\
   loop_body fuel batch index 128 = Ret (Some (valid ++ valid)) /\
   run (loop_body fuel batch index 128) g
   = (Returns (Some (valid ++ valid)), g)).
Proof.
  intros Hexact Hfuel Hentry Hsrc. split.
  - rewrite take_window_exact by assumption.
    split; [reflexivity|]. split; [reflexivity|]. split; [reflexivity|].
    rewrite Hexact, Z.sub_diag. reflexivity.
  - cbv zeta. set (valid := firstn 128 src).
    assert (Hvalid : length valid = 128%nat)
      by (unfold valid, py_len in *; rewrite length_firstn; lia).
    assert (Hd : py_len (valid ++ valid) = window_size)
      by (unfold py_len; rewrite length_app, Hvalid; reflexivity).
    assert (Hdouble : double_spec fuel (py_slice_to src 128)
                      = Some (valid ++ valid)).
    { rewrite py_slice_to_inside by lia.
      change (Z.to_nat 128) with 128%nat. fold valid.
      unfold double_spec. rewrite tensor_repeat_2_1.
      destruct fuel as [|fuel]; [lia|]. simpl. rewrite Hd. reflexivity. }
    assert (Hbody : loop_body fuel batch index 128
                    = Ret (Some (valid ++ valid))).
    { unfold loop_body. rewrite Hentry, Hdouble.
      apply take_window_exact. exact Hd. }
    repeat (split; [assumption|]). rewrite Hbody. reflexivity.
Qed.

Lemma exact_length_taken_as_is_witness :
  py_len (ramp 256 1) = window_size /\
  run (loop_body 1 [ramp 130 1] 0 128) 7
  = (Returns (Some (firstn 128 (ramp 130 1) ++ firstn 128 (ramp 130 1))), 7).
Proof.
  assert (H1 : py_len (ramp 256 1) = window_size) by reflexivity.
  split; [exact H1|].
  destruct (exact_length_taken_as_is (ramp 256 1) 1 [ramp 130 1] 0
              (ramp 130 1) 7 H1 ltac:(lia) eq_refl
              ltac:(unfold py_len; simpl; lia))
    as [_ (_ & _ & _ & Hrun)].
  exact Hrun.
Defined.

(** C9.  On the branch where the doubled length [d] exceeds
    [window_size], the draw and the slice are well defined: [d -
    window_size >= 1], so the range of [randint] is not empty and no
    [ValueError] is raised; and for every offset [r] of the range, [r +
    window_size <= d]: neither slice bound is clipped, the slice holds
    exactly [window_size] rows, and these are the rows [r .. r +
    window_size - 1] of the sequence. *)
Theorem random_crop_well_defined {A : Type} {G : Type} `{RNG : NumpyRandom G}
    (spec : tensor2 A) (g : G) :
  window_size < py_len spec ->
  let d := py_len spec in
  1 <= d - window_size /\
  py_range 0 (d - window_size) <> [] /\
  take_window spec
  = Randint 0 (d - window_size)
      (fun r => Ret (Some (py_slice spec r (r + window_size)))) /\
  (exists w (g' : G),
     run (take_window spec) g = (Returns (Some w), g') /\
     py_len w = window_size) /\
  forall r, 0 <= r < d - window_size ->
    r + window_size <= d /\
    adjust_bound r d = r /\
    adjust_bound (r + window_size) d = r + window_size /\
    py_len (py_slice spec r (r + window_size)) = window_size /\
    forall j, (j < Z.to_nat window_size)%nat ->
      (Z.to_nat r + j < length spec)%nat /\
      nth_error (py_slice spec r (r + window_size)) j
      = nth_error spec (Z.to_nat r + j).
Proof.
  intros Hlong d.
  assert (Hw : window_size = 256) by reflexivity.
  pose proof (draw_in_range g 0 (d - window_size) ltac:(lia)) as Hrange.
  split; [lia|]. split; [|split; [|split]].
  - intros Hempty.
    assert (Hin : In 0 (py_range 0 (d - window_size)))
      by (apply in_py_range; lia).
    rewrite Hempty in Hin. exact Hin.
  - apply take_window_longer. assumption.
  - rewrite run_take_window_longer by assumption. fold d.
    eexists _, _. split; [reflexivity|].
    apply (crop_inside spec _ Hlong Hrange).
  - intros r Hr.
    destruct (crop_inside spec r Hlong Hr) as (Hfit & Hlen & Hrows).
    fold d in Hfit.
    split; [assumption|].
    split; [apply adjust_bound_inside; lia|].
    split; [apply adjust_bound_inside; lia|].
    split; [assumption|].
    intros j Hj. split; [|apply Hrows; assumption].
    unfold d, py_len in *. lia.
Qed.

Lemma random_crop_well_defined_witness :
  window_size < py_len (ramp 300 1) /\
  exists w g', run (take_window (ramp 300 1)) 50 = (Returns (Some w), g') /\
               py_len w = window_size.
Proof.
  assert (H1 : window_size < py_len (ramp 300 1)) by reflexivity.
  split; [exact H1|].
  exact (proj1 (proj2 (proj2 (proj2
           (random_crop_well_defined (ramp 300 1) (50 : Z) H1))))).
Defined.

(** ** The claims about the whole batch *)

(** Validity of a concrete batch, by evaluation. *)
Ltac concrete_valid_input :=
  repeat split; repeat constructor; simpl; lia.

Section BatchFacts.

Context {A : Type} {G : Type} `{RNG : NumpyRandom G}.
Implicit Types (src spec w : tensor2 A) (batch : tensor3 A).

Lemma run_unified_length_same_valid_rows (fuel N L_max F : nat) batch batch'
    (lengths : list Z) (g : G) :
  valid_input N L_max F batch lengths ->
  same_valid_rows lengths batch batch' ->
  run (unified_length fuel batch' lengths) g
  = run (unified_length fuel batch lengths) g.
Proof.
  intros Hvalid [Hsize Hsame]. unfold unified_length.
  apply run_bind_ext; [|reflexivity].
  apply run_for_loop_same_valid_rows; [assumption|].
  intros i n src src' Hi Hsrc Hsrc'. simpl in Hsrc, Hsrc'.
  destruct (valid_input_entry _ _ _ _ _ _ _ Hvalid Hi)
    as (src0 & Hentry & Hn & _).
  rewrite Hentry in Hsrc. inversion Hsrc; subst src0.
  destruct (Hsame i n src src' Hi Hentry Hsrc') as [Hn' Hrows].
  repeat split; try assumption; lia.
Qed.

(** The loop over [l1 ++ l2] is the loop over [l1], then the loop over
    [l2] from where the first stopped. *)
Lemma run_for_loop_app (fuel : nat) batch (l1 l2 : list Z) :
  forall (index : nat) (acc : list (tensor2 A)) (g : G),
    run (for_loop fuel batch index (l1 ++ l2) acc) g
    = match run (for_loop fuel batch index l1 acc) g with
      | (Returns acc', g') =>
          run (for_loop fuel batch (index + length l1) l2 acc') g'
      | (Raises e, g') => (Raises e, g')
      | (Diverges, g') => (Diverges, g')
      end.
Proof.
  induction l1 as [|n rest IH]; intros index acc g.
  - simpl. rewrite Nat.add_0_r. reflexivity.
  - cbn [app for_loop length]. rewrite !run_bind.
    destruct (run (loop_body fuel batch index n) g) as [[appended|e|] g1];
      try reflexivity.
    rewrite IH. rewrite Nat.add_succ_r. reflexivity.
Qed.

(** Entries of the batch past the last length are not looked at. *)
Lemma run_for_loop_ignores_rest (fuel : nat) batch (extra : tensor3 A) :
  forall (lengths : list Z) (index : nat) (acc : list (tensor2 A)) (g : G),
    (index + length lengths <= length batch)%nat ->
    run (for_loop fuel (batch ++ extra) index lengths acc) g
    = run (for_loop fuel batch index lengths acc) g.
Proof.
  induction lengths as [|n rest IH]; intros index acc g Hfit;
    [reflexivity|].
  simpl in Hfit. cbn [for_loop]. apply run_bind_ext.
  - unfold loop_body. rewrite nth_error_app1 by lia. reflexivity.
  - intros appended g1. apply IH. lia.
Qed.

(** A length past the padded extent reads the whole entry, as the padded
    extent itself does. *)
Lemma loop_body_clipped (fuel N L_max F : nat) batch (index : nat) (n : Z) :
  has_shape3 N L_max F batch ->
  loop_body fuel batch index n
  = loop_body fuel batch index (Z.min (Z.of_nat L_max) n).
Proof.
  intros [_ Hshape]. unfold loop_body.
  destruct (nth_error batch index) as [src|] eqn:Hentry; [|reflexivity].
  rewrite Forall_forall in Hshape.
  destruct (Hshape src (nth_error_In _ _ Hentry)) as [Hrows _].
  destruct (Z.le_gt_cases n (Z.of_nat L_max)) as [Hle|Hgt].
  - rewrite Z.min_r by assumption. reflexivity.
  - rewrite Z.min_l by lia.
    rewrite !py_slice_to_clipped by (unfold py_len; lia). reflexivity.
Qed.

Lemma run_for_loop_clipped (fuel N L_max F : nat) batch :
  has_shape3 N L_max F batch ->
  forall (lengths : list Z) (index : nat) (acc : list (tensor2 A)) (g : G),
    run (for_loop fuel batch index lengths acc) g
    = run (for_loop fuel batch index
             (map (Z.min (Z.of_nat L_max)) lengths) acc) g.
Proof.
  intros Hshape. induction lengths as [|n rest IH]; intros index acc g;
    [reflexivity|].
  cbn [map for_loop]. apply run_bind_ext.
  - rewrite <- (loop_body_clipped fuel N L_max F batch index n Hshape).
    reflexivity.
  - intros appended g1. apply IH.
Qed.

End BatchFacts.

(** C1.  For a batch element with true length [n], [1 <= n <= L_max], of
    a valid batch, the call returns, and every one of the [window_size]
    rows of that element's window is a row of the valid region of its
    source: row [j] of the window is the source row at index [(r + j) mod
    n], an index below [n], for the offset [r] of the window.  No padded
    row gets into any window: a batch with the same valid rows and
    whatever padding gives the same result. *)
Theorem window_rows_are_valid_rows {A : Type} {G : Type} `{RNG : NumpyRandom G}
    (fuel N L_max F : nat) (batch : tensor3 A) (lengths : list Z) (g : G)
    (index : nat) (src : tensor2 A) (n : Z) :
  (8 <= fuel)%nat ->
  valid_input N L_max F batch lengths ->
  nth_error batch index = Some src ->
  nth_error lengths index = Some n ->
  exists (stacked : tensor3 A) (g' : G) (w : tensor2 A) (r : nat),
    run (unified_length fuel batch lengths) g = (Returns stacked, g') /\
    nth_error stacked index = Some w /\
    length w = 256%nat /\
    (forall j, (j < 256)%nat ->
       ((r + j) mod Z.to_nat n < Z.to_nat n)%nat /\
       Z.of_nat ((r + j) mod Z.to_nat n) < n /\
       nth_error w j = nth_error src ((r + j) mod Z.to_nat n)) /\
    (forall batch' : tensor3 A,
       same_valid_rows lengths batch batch' ->
       run (unified_length fuel batch' lengths) g
       = run (unified_length fuel batch lengths) g).
Proof.
  intros Hfuel Hvalid Hentry Hn.
  assert (HN : (1 <= N)%nat).
  { destruct Hvalid as ((Hsize & _) & _).
    assert (index < length batch)%nat by (apply nth_error_Some; congruence).
    lia. }
  destruct (run_unified_length fuel N L_max F batch lengths g Hfuel HN Hvalid)
    as (stacked & g' & Hrun & _ & Hwindows).
  destruct (Hwindows index n src Hn Hentry) as (w & r & Hw & Hlen & Hrows).
  exists stacked, g', w, r.
  split; [assumption|]. split; [assumption|]. split; [exact Hlen|].
  split.
  - intros j Hj. destruct (Hrows j Hj) as [Hlt Hrow].
    split; [assumption|]. split; [lia|assumption].
  - intros batch' Hsame.
    eapply run_unified_length_same_valid_rows; eauto.
Qed.

Lemma window_rows_are_valid_rows_witness :
  valid_input 1 3 1 [[[10]; [11]; [99]]] [2] /\
  exists stacked g' w r,
    run (unified_length 8 [[[10]; [11]; [99]]] [2]) 6 = (Returns stacked, g') /\
    nth_error stacked 0 = Some w /\
    length w = 256%nat /\
    (forall j, (j < 256)%nat ->
       ((r + j) mod Z.to_nat 2 < Z.to_nat 2)%nat /\
       Z.of_nat ((r + j) mod Z.to_nat 2) < 2 /\
       nth_error w j = nth_error [[10]; [11]; [99]] ((r + j) mod Z.to_nat 2)) /\
    (forall batch' : tensor3 Z,
       same_valid_rows [2] [[[10]; [11]; [99]]] batch' ->
       run (unified_length 8 batch' [2]) 6
       = run (unified_length 8 [[[10]; [11]; [99]]] [2]) 6).
Proof.
  assert (Hvalid : valid_input 1 3 1 [[[10]; [11]; [99]]] [2]).
  { concrete_valid_input. }
  split; [exact Hvalid|].
  apply (window_rows_are_valid_rows 8 1 3 1 [[[10]; [11]; [99]]] [2] 6 0
           [[10]; [11]; [99]] 2 ltac:(lia) Hvalid eq_refl eq_refl).
Defined.

(** C2 (amended).  For every input batch of shape [(N, L_max, F)] with [N
    >= 1] and [N] lengths, each in [[1, L_max]], the list of windows is
    stacked into a tensor of shape exactly [(N, 256, F)] -- one window of
    256 rows and [F] columns per input element -- and that tensor is what
    the style encoder is called on. *)
Theorem stacked_windows_shape {A : Type} {G : Type} `{RNG : NumpyRandom G}
    {E : Type} (gst : tensor3 A -> bool -> bool -> E)
    (fuel N L_max F : nat) (batch : tensor3 A) (lengths : list Z) (g : G)
    (return_all_outs return_only_refs : bool) :
  (8 <= fuel)%nat -> (1 <= N)%nat ->
  valid_input N L_max F batch lengths ->
  exists (stacked : tensor3 A) (g' : G),
    run (unified_length fuel batch lengths) g = (Returns stacked, g') /\
    has_shape3 N 256 F stacked /\
    run (forward gst fuel batch lengths return_all_outs return_only_refs) g
    = (Returns (gst stacked return_all_outs return_only_refs), g').
Proof.
  intros Hfuel HN Hvalid.
  destruct (run_unified_length fuel N L_max F batch lengths g Hfuel HN Hvalid)
    as (stacked & g' & Hrun & Hshape & _).
  exists stacked, g'. split; [assumption|]. split; [exact Hshape|].
  unfold forward. rewrite (run_bind_returns _ _ _ _ _ Hrun). reflexivity.
Qed.

Lemma stacked_windows_shape_witness :
  valid_input 2 3 1 [ramp 3 1; ramp 3 1] [2; 3] /\
  exists stacked g',
    run (unified_length 8 [ramp 3 1; ramp 3 1] [2; 3]) 0
    = (Returns stacked, g') /\
    has_shape3 2 256 1 stacked /\
    run (forward (fun t _ _ => length t) 8 [ramp 3 1; ramp 3 1] [2; 3]
           false false) 0
    = (Returns (length stacked), g').
Proof.
  assert (Hvalid : valid_input 2 3 1 [ramp 3 1; ramp 3 1] [2; 3]).
  { concrete_valid_input. }
  split; [exact Hvalid|].
  apply (stacked_windows_shape (fun t _ _ => length t) 8 2 3 1
           [ramp 3 1; ramp 3 1] [2; 3] 0 false false
           ltac:(lia) ltac:(lia) Hvalid).
Defined.

(** C2, as stated, fails on the empty batch: a batch of shape [(0, L_max,
    F)] with no lengths is valid input, the loop appends nothing and
    [torch.stack] raises on the empty list; no tensor of shape [(0, 256,
    F)] is produced. *)
Lemma empty_batch_is_not_stacked :
  valid_input 0 4 80 (@nil (tensor2 Z)) [] /\
  (forall fuel : nat,
     run (unified_length fuel (@nil (tensor2 Z)) []) 0
     = (Raises RuntimeError, 0)) /\
  ~ (exists (stacked : tensor3 Z) (g' : Z),
       run (unified_length 8 (@nil (tensor2 Z)) []) 0 = (Returns stacked, g') /\
       has_shape3 0 256 80 stacked).
Proof.
  split; [repeat split; constructor|]. split; [reflexivity|].
  intros (stacked & g' & Hrun & _). discriminate Hrun.
Qed.

(** C3, as stated, fails: a length above the padded extent and a length
    vector shorter than the batch both give a stacked window instead of an
    error, and on a length of 0 the slice is taken (it is empty) and the
    doubling loop never ends, whatever the fuel: nothing is raised. *)
Lemma malformed_input_counterexample :
  (exists w : tensor2 Z,
     run (unified_length 8 [ramp 3 1] [5]) 0 = (Returns [w], 1)) /\
  (exists w : tensor2 Z,
     run (unified_length 8 [ramp 3 1; ramp 3 1] [3]) 0 = (Returns [w], 1)) /\
  (forall fuel : nat,
     run (unified_length fuel [ramp 3 1] [0]) 0 = (Diverges, 0)) /\
  (forall (fuel : nat) (e : exn),
     fst (run (unified_length fuel [ramp 3 1] [0]) 0) <> Raises e).
Proof.
  assert (Hzero : forall fuel : nat,
             run (unified_length fuel [ramp 3 1] [0]) 0 = (Diverges, 0)).
  { intros fuel. unfold unified_length. cbn [for_loop]. unfold loop_body.
    cbn [nth_error].
    change (py_slice_to (ramp 3 1) 0) with (@nil (list Z)).
    rewrite double_spec_empty. reflexivity. }
  split; [eexists; vm_compute; reflexivity|].
  split; [eexists; vm_compute; reflexivity|].
  split; [exact Hzero|].
  intros fuel e. rewrite Hzero. discriminate.
Qed.

(* ================================================================== *)
(** * Part III: properties of [LogSTFTMagnitudeLoss.forward] *)
(* ================================================================== *)

Section LogLoss.

Import LogSTFTMagnitudeLoss.

Local Open Scope R_scope.

Lemma sum_over_succ (n : nat) (f : nat -> R) :
  sum_over (S n) f = f 0%nat + sum_over n (fun i => f (S i)).
Proof.
  unfold sum_over. simpl. f_equal.
  rewrite <- seq_shift.
  induction (seq 0 n) as [|i rest IH]; simpl; [reflexivity|].
  rewrite IH. reflexivity.
Qed.

Lemma length_abs_diff (a b : tensor) :
  length a = length b -> length (abs_diff a b) = length a.
Proof.
  revert b. induction a as [|u a IH]; intros [|v b] Hlen; simpl in *;
    try reflexivity; try discriminate.
  rewrite IH by congruence. reflexivity.
Qed.

(** The entrywise sum against the sum over positions. *)
Lemma torch_sum_abs_diff_log (x y : tensor) :
  length x = length y ->
  torch_sum (abs_diff (torch_log y) (torch_log x))
  = sum_over (length x)
      (fun i => Rabs (ln (nth i y 0) - ln (nth i x 0))).
Proof.
  revert y. induction x as [|a x IH]; intros [|b y] Hlen; simpl in *;
    try reflexivity; try discriminate.
  rewrite sum_over_succ. unfold torch_sum in *. simpl.
  f_equal. apply IH. congruence.
Qed.

End LogLoss.

(** C8.  For two tensors of the documented common shape with strictly
    positive entries, [forward(x_mag, y_mag)] is the L1 comparison of the
    log magnitudes: the mean, over all entries, of the absolute difference
    between [log(y_mag)] and [log(x_mag)]. *)
Theorem forward_is_log_magnitude_l1 (x_mag y_mag : LogSTFTMagnitudeLoss.tensor) :
  length x_mag = length y_mag ->
  LogSTFTMagnitudeLoss.positive_entries x_mag ->
  LogSTFTMagnitudeLoss.positive_entries y_mag ->
  LogSTFTMagnitudeLoss.forward x_mag y_mag
  = LogSTFTMagnitudeLoss.log_magnitude_l1 x_mag y_mag.
Proof.
  intros Hlen _ _.
  unfold LogSTFTMagnitudeLoss.forward, LogSTFTMagnitudeLoss.l1_loss,
    LogSTFTMagnitudeLoss.log_magnitude_l1.
  pose proof (torch_sum_abs_diff_log x_mag y_mag Hlen) as Hsum.
  assert (Hcount :
            length (LogSTFTMagnitudeLoss.abs_diff
                      (LogSTFTMagnitudeLoss.torch_log y_mag)
                      (LogSTFTMagnitudeLoss.torch_log x_mag))
            = length x_mag).
  { rewrite length_abs_diff;
      unfold LogSTFTMagnitudeLoss.torch_log; rewrite !length_map;
      congruence. }
  destruct (LogSTFTMagnitudeLoss.abs_diff
              (LogSTFTMagnitudeLoss.torch_log y_mag)
              (LogSTFTMagnitudeLoss.torch_log x_mag)) as [|d rest] eqn:Hd.
  - rewrite <- Hcount. reflexivity.
  - unfold LogSTFTMagnitudeLoss.torch_mean. rewrite Hsum, Hcount.
    destruct (length x_mag) as [|n] eqn:Hn; [discriminate Hcount|].
    reflexivity.
Qed.

Lemma forward_is_log_magnitude_l1_witness :
  LogSTFTMagnitudeLoss.positive_entries [1; 2]%R /\
  LogSTFTMagnitudeLoss.positive_entries [3; 4]%R /\
  LogSTFTMagnitudeLoss.forward [1; 2]%R [3; 4]%R
  = LogSTFTMagnitudeLoss.log_magnitude_l1 [1; 2]%R [3; 4]%R.
Proof.
  assert (H1 : LogSTFTMagnitudeLoss.positive_entries [1; 2]%R)
    by (repeat constructor; lra).
  assert (H2 : LogSTFTMagnitudeLoss.positive_entries [3; 4]%R)
    by (repeat constructor; lra).
  split; [exact H1|]. split; [exact H2|].
  apply (forward_is_log_magnitude_l1 [1; 2]%R [3; 4]%R eq_refl H1 H2).
Defined.

(** ** Special values: symmetry and the diagonal *)

Section LogLossIEEE.

Import LogSTFTMagnitudeLossIEEE.

Local Open Scope R_scope.

Lemma flog_finite_positive (r : R) : 0 < r -> flog (Finite r) = Finite (ln r).
Proof.
  intros Hr. unfold flog. destruct (Rlt_dec 0 r); [reflexivity|contradiction].
Qed.

Lemma fabs_fsub_sym (a b : float) : fabs (fsub a b) = fabs (fsub b a).
Proof.
  destruct a, b; simpl; try reflexivity.
  f_equal. apply Rabs_minus_sym.
Qed.

Lemma ieee_abs_diff_sym (a b : tensor) : abs_diff a b = abs_diff b a.
Proof.
  revert b. induction a as [|u a IH]; intros [|v b]; simpl;
    try reflexivity.
  rewrite fabs_fsub_sym, IH. reflexivity.
Qed.

Lemma ieee_torch_sum_abs_diff_self (a : tensor) :
  finite_entries a -> torch_sum (abs_diff a a) = Finite 0.
Proof.
  intros Ha. induction Ha as [|u a Hu _ IH]; [reflexivity|].
  destruct u as [r| | |]; try contradiction.
  unfold torch_sum in *. simpl. rewrite IH. simpl.
  f_equal. unfold Rminus. rewrite Rplus_opp_r, Rabs_R0. lra.
Qed.

Lemma torch_log_finite (x : tensor) :
  positive_entries x -> finite_entries x -> finite_entries (torch_log x).
Proof.
  intros Hpos Hfin. unfold torch_log.
  induction Hpos as [|v x Hv _ IH]; [constructor|].
  inversion Hfin; subst. simpl. constructor; [|apply IH; assumption].
  destruct v as [r| | |]; try contradiction.
  simpl in Hv. rewrite flog_finite_positive by assumption. exact I.
Qed.

(** On finite positive entries this model is the real-valued one. *)
Lemma forward_on_finite_positive (x y : LogSTFTMagnitudeLoss.tensor) :
  LogSTFTMagnitudeLoss.positive_entries x ->
  LogSTFTMagnitudeLoss.positive_entries y ->
  forward (map Finite x) (map Finite y)
  = match LogSTFTMagnitudeLoss.forward x y with
    | Some v => Finite v
    | None => NaN
    end.
Proof.
  intros Hx Hy.
  unfold forward, l1_loss, LogSTFTMagnitudeLoss.forward,
    LogSTFTMagnitudeLoss.l1_loss.
  assert (Hdiff :
            abs_diff (torch_log (map Finite y)) (torch_log (map Finite x))
            = map Finite
                (LogSTFTMagnitudeLoss.abs_diff
                   (LogSTFTMagnitudeLoss.torch_log y)
                   (LogSTFTMagnitudeLoss.torch_log x))).
  { revert x Hx. induction Hy as [|b y Hb _ IH]; intros x Hx; [reflexivity|].
    destruct Hx as [|a x Ha Hx]; [reflexivity|].
    cbn [map torch_log LogSTFTMagnitudeLoss.torch_log abs_diff
         LogSTFTMagnitudeLoss.abs_diff].
    rewrite !flog_finite_positive by assumption.
    cbn [fsub fabs]. f_equal. apply IH. assumption. }
  rewrite Hdiff.
  generalize (LogSTFTMagnitudeLoss.abs_diff
                (LogSTFTMagnitudeLoss.torch_log y)
                (LogSTFTMagnitudeLoss.torch_log x)).
  intros t.
  assert (Hsum : torch_sum (map Finite t)
                 = Finite (LogSTFTMagnitudeLoss.torch_sum t)).
  { induction t as [|d t IH]; [reflexivity|].
    unfold torch_sum, LogSTFTMagnitudeLoss.torch_sum in *. simpl.
    rewrite IH. reflexivity. }
  unfold torch_mean, LogSTFTMagnitudeLoss.torch_mean.
  rewrite Hsum, length_map.
  destruct t as [|d t].
  - simpl. unfold LogSTFTMagnitudeLoss.torch_sum. simpl.
    destruct (Rlt_dec 0 0) as [Habs|_]; [lra|reflexivity].
  - reflexivity.
Qed.

End LogLossIEEE.

(** C10 (amended).  [forward] is symmetric in its two arguments: for all
    tensors [x], [y] of strictly positive entries, [forward(x, y)] equals
    [forward(y, x)]; and [forward(x, x)] equals 0 for every such [x] that
    has at least one entry and no infinite entry. *)
Theorem forward_symmetric_and_zero_on_finite_diagonal
    (x y : LogSTFTMagnitudeLossIEEE.tensor) :
  LogSTFTMagnitudeLossIEEE.positive_entries x ->
  LogSTFTMagnitudeLossIEEE.positive_entries y ->
  LogSTFTMagnitudeLossIEEE.forward x y = LogSTFTMagnitudeLossIEEE.forward y x /\
  (x <> [] -> LogSTFTMagnitudeLossIEEE.finite_entries x ->
   LogSTFTMagnitudeLossIEEE.forward x x
   = LogSTFTMagnitudeLossIEEE.Finite 0%R).
Proof.
  intros Hx _. split.
  - unfold LogSTFTMagnitudeLossIEEE.forward, LogSTFTMagnitudeLossIEEE.l1_loss.
    rewrite ieee_abs_diff_sym. reflexivity.
  - intros Hne Hfin.
    unfold LogSTFTMagnitudeLossIEEE.forward, LogSTFTMagnitudeLossIEEE.l1_loss,
      LogSTFTMagnitudeLossIEEE.torch_mean.
    rewrite ieee_torch_sum_abs_diff_self by (apply torch_log_finite; assumption).
    destruct x as [|v x]; [contradiction|].
    simpl. f_equal. unfold Rdiv. apply Rmult_0_l.
Qed.

Lemma forward_symmetric_and_zero_on_finite_diagonal_witness :
  LogSTFTMagnitudeLossIEEE.positive_entries
    [LogSTFTMagnitudeLossIEEE.Finite 2%R; LogSTFTMagnitudeLossIEEE.Finite 5%R] /\
  LogSTFTMagnitudeLossIEEE.positive_entries
    [LogSTFTMagnitudeLossIEEE.Finite 3%R; LogSTFTMagnitudeLossIEEE.PosInf] /\
  LogSTFTMagnitudeLossIEEE.forward
    [LogSTFTMagnitudeLossIEEE.Finite 2%R; LogSTFTMagnitudeLossIEEE.Finite 5%R]
    [LogSTFTMagnitudeLossIEEE.Finite 3%R; LogSTFTMagnitudeLossIEEE.PosInf]
  = LogSTFTMagnitudeLossIEEE.forward
      [LogSTFTMagnitudeLossIEEE.Finite 3%R; LogSTFTMagnitudeLossIEEE.PosInf]
      [LogSTFTMagnitudeLossIEEE.Finite 2%R; LogSTFTMagnitudeLossIEEE.Finite 5%R] /\
  LogSTFTMagnitudeLossIEEE.forward
    [LogSTFTMagnitudeLossIEEE.Finite 2%R; LogSTFTMagnitudeLossIEEE.Finite 5%R]
    [LogSTFTMagnitudeLossIEEE.Finite 2%R; LogSTFTMagnitudeLossIEEE.Finite 5%R]
  = LogSTFTMagnitudeLossIEEE.Finite 0%R.
Proof.
  assert (Hx : LogSTFTMagnitudeLossIEEE.positive_entries
                 [LogSTFTMagnitudeLossIEEE.Finite 2%R;
                  LogSTFTMagnitudeLossIEEE.Finite 5%R])
    by (repeat constructor; simpl; lra).
  assert (Hy : LogSTFTMagnitudeLossIEEE.positive_entries
                 [LogSTFTMagnitudeLossIEEE.Finite 3%R;
                  LogSTFTMagnitudeLossIEEE.PosInf])
    by (repeat constructor; simpl; lra).
  split; [exact Hx|]. split; [exact Hy|].
  destruct (forward_symmetric_and_zero_on_finite_diagonal _ _ Hx Hy)
    as [Hsym Hzero].
  split; [exact Hsym|].
  apply Hzero; [discriminate|repeat constructor].
Defined.

(** C10, as stated, fails on the diagonal in two places: for the tensor
    without entries (all of whose entries are strictly positive) the loss
    is the mean of nothing, NaN; and for a tensor with the strictly
    positive entry [inf] the difference [log(inf) - log(inf)] is NaN, and
    so is the loss.  Neither is 0. *)
Lemma forward_diagonal_is_not_always_zero :
  (LogSTFTMagnitudeLossIEEE.positive_entries [] /\
   LogSTFTMagnitudeLossIEEE.forward [] [] = LogSTFTMagnitudeLossIEEE.NaN) /\
  (LogSTFTMagnitudeLossIEEE.positive_entries [LogSTFTMagnitudeLossIEEE.PosInf] /\
   LogSTFTMagnitudeLossIEEE.forward
     [LogSTFTMagnitudeLossIEEE.PosInf] [LogSTFTMagnitudeLossIEEE.PosInf]
   = LogSTFTMagnitudeLossIEEE.NaN) /\
  LogSTFTMagnitudeLossIEEE.NaN <> LogSTFTMagnitudeLossIEEE.Finite 0%R.
Proof.
  split; [|split].
  - split; [constructor|].
    unfold LogSTFTMagnitudeLossIEEE.forward, LogSTFTMagnitudeLossIEEE.l1_loss,
      LogSTFTMagnitudeLossIEEE.torch_mean. simpl.
    destruct (Rlt_dec 0 0) as [Habs|_]; [lra|reflexivity].
  - split; [repeat constructor|reflexivity].
  - discriminate.
Qed.

(* ================================================================== *)
(** * Part IV: further properties of [StyleEmbedding.forward] *)
(* ================================================================== *)

(** ** Any input: what a call can do *)

Section AnyInput.

Context {A : Type} {G : Type} `{RNG : NumpyRandom G}.
Implicit Types (src spec w : tensor2 A) (batch : tensor3 A).

Lemma In_firstn_inv {T : Type} (k : nat) (l : list T) (x : T) :
  In x (firstn k l) -> In x l.
Proof.
  intros Hin. rewrite <- (firstn_skipn k l). apply in_or_app. left. exact Hin.
Qed.

Lemma In_skipn_inv {T : Type} (k : nat) (l : list T) (x : T) :
  In x (skipn k l) -> In x l.
Proof.
  intros Hin. rewrite <- (firstn_skipn k l). apply in_or_app. right. exact Hin.
Qed.

Lemma In_py_slice {T : Type} (t : list T) (lo hi : Z) (x : T) :
  In x (py_slice t lo hi) -> In x t.
Proof.
  unfold py_slice. intros Hin.
  eapply In_skipn_inv, In_firstn_inv, Hin.
Qed.

Lemma In_copies {T : Type} (k : nat) (l : list T) (x : T) :
  In x (copies k l) -> In x l.
Proof.
  unfold copies. rewrite in_concat. intros (l' & Hl' & Hx).
  apply repeat_spec in Hl'. subst l'. exact Hx.
Qed.

(** Whatever the doubling step returns is long enough and is made of
    copies of what it was given. *)
Lemma double_spec_any (fuel : nat) spec out :
  double_spec fuel spec = Some out ->
  window_size <= py_len out /\ exists k : nat, out = copies k spec.
Proof.
  unfold double_spec. rewrite tensor_repeat_2_1. intros Hrun.
  destruct (while_too_short_result _ _ _ Hrun) as (m & _ & Hout & Hge & _).
  split; [assumption|].
  exists (2 * 2 ^ m)%nat. rewrite Hout. apply copies_twice.
Qed.

(** A sequence that is long enough always yields a window of
    [window_size] of its rows. *)
Lemma run_take_window_any spec (g : G) :
  window_size <= py_len spec ->
  exists w (g' : G),
    run (take_window spec) g = (Returns (Some w), g') /\
    py_len w = window_size /\
    forall row, In row w -> In row spec.
Proof.
  intros Hge.
  destruct (Z.eq_dec (py_len spec) window_size) as [Hexact|Hneq].
  - exists spec, g. rewrite take_window_exact by assumption. auto.
  - assert (Hlong : window_size < py_len spec) by lia.
    rewrite run_take_window_longer by assumption.
    pose proof (draw_in_range g 0 (py_len spec - window_size) ltac:(lia))
      as Hrange.
    eexists _, _. split; [reflexivity|]. split.
    + apply (crop_inside spec _ Hlong Hrange).
    + intros row. apply In_py_slice.
Qed.

(** The three things one iteration can do. *)
Lemma run_loop_body_cases (fuel : nat) batch (index : nat) (n : Z) (g : G) :
  (nth_error batch index = None /\
   run (loop_body fuel batch index n) g = (Raises IndexError, g))
  \/
  (exists src,
     nth_error batch index = Some src /\
     (run (loop_body fuel batch index n) g = (Diverges, g) \/
      exists w (g' : G),
        run (loop_body fuel batch index n) g = (Returns (Some w), g') /\
        py_len w = window_size /\
        forall row, In row w -> In row (py_slice_to src n))).
Proof.
  unfold loop_body.
  destruct (nth_error batch index) as [src|]; [right|left; auto].
  exists src. split; [reflexivity|].
  destruct (double_spec fuel (py_slice_to src n)) as [out|] eqn:Hdouble;
    [right|left; reflexivity].
  destruct (double_spec_any _ _ _ Hdouble) as (Hge & k & Hout).
  destruct (run_take_window_any out g Hge) as (w & g' & Hrun & Hlen & Hrows).
  exists w, g'. split; [assumption|]. split; [assumption|].
  intros row Hin. apply (In_copies k). rewrite <- Hout. auto.
Qed.

(** What the loop can do, from any position and on any lengths. *)
Lemma run_for_loop_cases (fuel : nat) batch :
  forall (lengths : list Z) (index : nat) (acc : list (tensor2 A)) (g : G),
    match run (for_loop fuel batch index lengths acc) g with
    | (Returns out, _) =>
        exists ws,
          out = acc ++ ws /\
          length ws = length lengths /\
          (index + length lengths <= length batch \/ lengths = [])%nat /\
          forall i w, nth_error ws i = Some w ->
            py_len w = window_size /\
            exists src n,
              nth_error batch (index + i) = Some src /\
              nth_error lengths i = Some n /\
              forall row, In row w -> In row (py_slice_to src n)
    | (Raises e, _) =>
        e = IndexError /\ (length batch < index + length lengths)%nat
    | (Diverges, _) => True
    end.
Proof.
  induction lengths as [|n rest IH]; intros index acc g.
  - simpl. exists []. rewrite app_nil_r.
    split; [reflexivity|]. split; [reflexivity|]. split; [right; reflexivity|].
    intros [|i] w Hw; discriminate.
  - cbn [for_loop]. rewrite run_bind.
    destruct (run_loop_body_cases fuel batch index n g)
      as [[Hnone Hrun]|(src & Hentry & [Hrun|(w & g1 & Hrun & Hlen & Hrows)])];
      rewrite Hrun.
    + split; [reflexivity|]. apply nth_error_None in Hnone. simpl. lia.
    + exact I.
    + specialize (IH (S index) (acc ++ [w]) g1).
      destruct (run (for_loop fuel batch (S index) rest (acc ++ [w])) g1)
        as [[out|e|] g'].
      * destruct IH as (ws & Hout & Hcount & Hfit & Hws).
        exists (w :: ws). split; [rewrite Hout, <- app_assoc; reflexivity|].
        split; [simpl; congruence|]. split.
        { left. simpl.
          assert (index < length batch)%nat
            by (apply nth_error_Some; congruence).
          destruct Hfit as [Hfit| ->]; simpl in *; lia. }
        intros [|i] w' Hw'.
        { simpl in Hw'. inversion Hw'; subst w'. split; [assumption|].
          exists src, n. rewrite Nat.add_0_r. auto. }
        { simpl in Hw'. destruct (Hws i w' Hw') as (Hlen' & src' & n' & H1 & H2 & H3).
          split; [assumption|]. exists src', n'.
          rewrite Nat.add_succ_r. auto. }
      * destruct IH as [He Hshort]. split; [assumption|]. simpl. lia.
      * exact I.
Qed.

(** On a rectangular batch every window the loop builds has the shape
    [(window_size, F)]. *)
Lemma for_loop_windows_shape (fuel N L_max F : nat) batch
    (lengths : list Z) (g g' : G) (ws : list (tensor2 A)) :
  has_shape3 N L_max F batch ->
  run (for_loop fuel batch 0 lengths []) g = (Returns ws, g') ->
  Forall (has_shape2 (Z.to_nat window_size) F) ws.
Proof.
  intros [_ Hshape] Hrun.
  pose proof (run_for_loop_cases fuel batch lengths 0%nat [] g) as Hcases.
  rewrite Hrun in Hcases.
  destruct Hcases as (ws' & Hout & _ & _ & Hws). simpl in Hout. subst ws'.
  apply Forall_forall. intros w Hin.
  destruct (In_nth_error _ _ Hin) as [i Hi].
  destruct (Hws i w Hi) as (Hlen & src & n & Hentry & _ & Hrows).
  split; [unfold py_len in Hlen; lia|].
  apply Forall_forall. intros row Hrow.
  rewrite Forall_forall in Hshape.
  destruct (Hshape src (nth_error_In _ _ Hentry)) as [_ Hcols].
  rewrite Forall_forall in Hcols. apply Hcols.
  eapply In_py_slice. apply Hrows. exact Hrow.
Qed.

End AnyInput.

(** X1.  Whatever the batch and the lengths (valid or not), a call of the
    windowing stage that returns has stacked exactly one window per length
    entry -- no element is ever dropped, the branch that appends nothing is
    never taken -- there was at least one length and a batch entry for each;
    every window has exactly 256 rows, and each of them is a row of the
    batch entry at the same position. *)
Theorem every_length_gets_a_window {A : Type} {G : Type} `{RNG : NumpyRandom G}
    (fuel : nat) (batch : tensor3 A) (lengths : list Z) (g g' : G)
    (stacked : tensor3 A) :
  run (unified_length fuel batch lengths) g = (Returns stacked, g') ->
  length stacked = length lengths /\
  lengths <> [] /\
  (length lengths <= length batch)%nat /\
  forall i w, nth_error stacked i = Some w ->
    length w = 256%nat /\
    exists src n,
      nth_error batch i = Some src /\
      nth_error lengths i = Some n /\
      forall row, In row w -> In row src.
Proof.
  unfold unified_length. rewrite run_bind.
  pose proof (run_for_loop_cases fuel batch lengths 0%nat [] g) as Hcases.
  destruct (run (for_loop fuel batch 0 lengths []) g) as [[ws|e|] g1];
    try discriminate.
  destruct Hcases as (ws' & Hout & Hcount & Hfit & Hws).
  simpl in Hout. subst ws'.
  intros Hstack.
  assert (Hstacked : stacked = ws /\ ws <> []).
  { destruct ws as [|w rest]; [discriminate Hstack|].
    simpl in Hstack. destruct (forallb (same_size w) rest);
      [|discriminate Hstack].
    inversion Hstack. split; [reflexivity|discriminate]. }
  destruct Hstacked as [-> Hne].
  split; [assumption|]. split.
  { intros ->. destruct ws; [contradiction|discriminate]. }
  split.
  { destruct Hfit as [Hfit| ->]; simpl in *; lia. }
  intros i w Hw.
  destruct (Hws i w Hw) as (Hlen & src & n & Hentry & Hn & Hrows).
  split; [unfold py_len, window_size in Hlen; lia|].
  exists src, n. split; [assumption|]. split; [assumption|].
  intros row Hrow. eapply In_py_slice. apply Hrows. exact Hrow.
Qed.

Lemma every_length_gets_a_window_witness :
  exists (stacked : tensor3 Z) (g' : Z),
    run (unified_length 8 [ramp 3 1; ramp 3 1] [-1; 7]) 0
    = (Returns stacked, g') /\
    length stacked = 2%nat.
Proof.
  let v := eval vm_compute in
             (run (unified_length 8 [ramp 3 1; ramp 3 1] [-1; 7]) 0) in
  match v with
  | (Returns ?s, ?g1) =>
      assert (E : run (unified_length 8 [ramp 3 1; ramp 3 1] [-1; 7]) 0
                  = (Returns s, g1)) by (vm_compute; reflexivity);
      exists s, g1; split; [exact E|];
      exact (proj1 (every_length_gets_a_window 8 _ _ 0 g1 s E))
  end.
Defined.

(** X2.  The only exceptions the windowing stage raises on a rectangular
    batch are [IndexError], when there are more lengths than batch
    entries, and the [RuntimeError] of [torch.stack], when there is no
    length at all (which always raises it).  [numpy.random.randint] is
    never asked for a number from an empty range: no [ValueError]. *)
Theorem only_index_and_stack_errors {A : Type} {G : Type} `{RNG : NumpyRandom G}
    (fuel N L_max F : nat) (batch : tensor3 A) (lengths : list Z) (g : G) :
  has_shape3 N L_max F batch ->
  (lengths = [] ->
   run (unified_length fuel batch lengths) g = (Raises RuntimeError, g)) /\
  forall (e : exn) (g' : G),
    run (unified_length fuel batch lengths) g = (Raises e, g') ->
    e <> ValueError /\
    ((e = IndexError /\ (N < length lengths)%nat) \/
     (e = RuntimeError /\ lengths = [])).
Proof.
  intros Hshape. split; [intros ->; reflexivity|].
  intros e g'. unfold unified_length. rewrite run_bind.
  pose proof (run_for_loop_cases fuel batch lengths 0%nat [] g) as Hcases.
  pose proof (for_loop_windows_shape fuel N L_max F batch lengths g) as Hwin.
  destruct (run (for_loop fuel batch 0 lengths []) g) as [[ws|e1|] g1];
    try discriminate.
  - destruct Hcases as (ws' & Hout & Hcount & _). simpl in Hout. subst ws'.
    specialize (Hwin g1 ws Hshape eq_refl).
    destruct ws as [|w rest].
    + simpl. intros Hraise. inversion Hraise; subst.
      split; [discriminate|]. right. split; [reflexivity|].
      destruct lengths; [reflexivity|discriminate].
    + rewrite (torch_stack_same_shape (Z.to_nat window_size) F);
        [discriminate|discriminate|assumption].
  - destruct Hcases as [-> Hshort]. intros Hraise. inversion Hraise; subst.
    split; [discriminate|]. left. split; [reflexivity|].
    destruct Hshape as [Hsize _]. simpl in Hshort. lia.
Qed.

Lemma only_index_and_stack_errors_witness :
  has_shape3 1 3 1 [ramp 3 1] /\
  run (unified_length 8 [ramp 3 1] []) 4 = (Raises RuntimeError, 4) /\
  forall (e : exn) (g' : Z),
    run (unified_length 8 [ramp 3 1] [2; 2]) 4 = (Raises e, g') ->
    e <> ValueError /\
    ((e = IndexError /\ (1 < length [2; 2])%nat) \/
     (e = RuntimeError /\ [2; 2] = [])).
Proof.
  assert (Hshape : has_shape3 1 3 1 [ramp 3 1])
    by (repeat split; repeat constructor).
  split; [exact Hshape|]. split.
  - exact (proj1 (only_index_and_stack_errors 8 1 3 1 [ramp 3 1] [] 4 Hshape)
             eq_refl).
  - exact (proj2 (only_index_and_stack_errors 8 1 3 1 [ramp 3 1] [2; 2] 4
                    Hshape)).
Defined.

(** ** Lengths outside [1 .. L_max] *)

Section OddLengths.

Context {A : Type} {G : Type} `{RNG : NumpyRandom G}.
Implicit Types (src spec w : tensor2 A) (batch : tensor3 A).

Lemma adjust_bound_range (i len : Z) :
  0 <= len -> 0 <= adjust_bound i len <= len.
Proof.
  intros Hlen. unfold adjust_bound. destruct (i <? 0) eqn:E.
  - apply Z.ltb_lt in E. lia.
  - apply Z.ltb_ge in E. lia.
Qed.

(** A slice bound acts through the value Python clips it to. *)
Lemma py_slice_to_adjust {T : Type} (t : list T) (n : Z) :
  py_slice_to t n = py_slice_to t (adjust_bound n (py_len t)).
Proof.
  unfold py_slice_to, py_slice.
  rewrite (adjust_bound_inside (adjust_bound n (py_len t)) (py_len t));
    [reflexivity|].
  apply adjust_bound_range. unfold py_len. lia.
Qed.

Lemma loop_body_adjust (fuel N L_max F : nat) batch (index : nat) (n : Z) :
  has_shape3 N L_max F batch ->
  loop_body fuel batch index n
  = loop_body fuel batch index (adjust_bound n (Z.of_nat L_max)).
Proof.
  intros [_ Hshape]. unfold loop_body.
  destruct (nth_error batch index) as [src|] eqn:Hentry; [|reflexivity].
  rewrite Forall_forall in Hshape.
  destruct (Hshape src (nth_error_In _ _ Hentry)) as [Hrows _].
  rewrite (py_slice_to_adjust src n). unfold py_len. rewrite Hrows.
  reflexivity.
Qed.

Lemma run_for_loop_adjust (fuel N L_max F : nat) batch :
  has_shape3 N L_max F batch ->
  forall (lengths : list Z) (index : nat) (acc : list (tensor2 A)) (g : G),
    run (for_loop fuel batch index lengths acc) g
    = run (for_loop fuel batch index
             (map (fun n => adjust_bound n (Z.of_nat L_max)) lengths) acc) g.
Proof.
  intros Hshape. induction lengths as [|n rest IH]; intros index acc g;
    [reflexivity|].
  cbn [map for_loop]. apply run_bind_ext.
  - rewrite <- (loop_body_adjust fuel N L_max F batch index n Hshape).
    reflexivity.
  - intros appended g1. apply IH.
Qed.

(** An iteration whose slice is empty stays in the loop. *)
Lemma loop_body_empty_slice (fuel N L_max F : nat) batch (index : nat)
    (n : Z) src :
  has_shape3 N L_max F batch ->
  nth_error batch index = Some src ->
  adjust_bound n (Z.of_nat L_max) = 0 ->
  loop_body fuel batch index n = Spin.
Proof.
  intros Hshape Hentry Hzero.
  rewrite (loop_body_adjust fuel N L_max F batch index n Hshape), Hzero.
  unfold loop_body. rewrite Hentry.
  assert (Hnil : py_slice_to src 0 = []).
  { rewrite py_slice_to_inside by (unfold py_len; lia). reflexivity. }
  rewrite Hnil, double_spec_empty. reflexivity.
Qed.

End OddLengths.

(** X3.  On a batch of shape [(N, L_max, F)] a length entry counts only
    through the value Python clips the slice bound to: the call does the
    same on the lengths as given and on the clipped lengths.  A length
    within [0 .. L_max] is itself, a length above [L_max] acts as [L_max],
    a negative length [-k] with [k <= L_max] acts as [L_max - k] (the last
    [k] rows are cut off), and a length below [-L_max] acts as 0. *)
Theorem length_acts_through_slice_clipping
    {A : Type} {G : Type} `{RNG : NumpyRandom G}
    (fuel N L_max F : nat) (batch : tensor3 A) (lengths : list Z) (g : G) :
  has_shape3 N L_max F batch ->
  run (unified_length fuel batch lengths) g
  = run (unified_length fuel batch
           (map (fun n => adjust_bound n (Z.of_nat L_max)) lengths)) g
  /\
  forall n : Z,
    (0 <= n <= Z.of_nat L_max -> adjust_bound n (Z.of_nat L_max) = n) /\
    (Z.of_nat L_max <= n -> adjust_bound n (Z.of_nat L_max) = Z.of_nat L_max) /\
    (- Z.of_nat L_max <= n < 0 ->
     adjust_bound n (Z.of_nat L_max) = Z.of_nat L_max + n) /\
    (n <= - Z.of_nat L_max -> adjust_bound n (Z.of_nat L_max) = 0).
Proof.
  intros Hshape. split.
  - unfold unified_length. apply run_bind_ext; [|reflexivity].
    apply (run_for_loop_adjust fuel N L_max F batch Hshape).
  - intros n. unfold adjust_bound.
    destruct (n <? 0) eqn:E;
      [apply Z.ltb_lt in E|apply Z.ltb_ge in E]; repeat split; lia.
Qed.

Lemma length_acts_through_slice_clipping_witness :
  has_shape3 1 3 1 [ramp 3 1] /\
  run (unified_length 8 [ramp 3 1] [-1]) 4
  = run (unified_length 8 [ramp 3 1] [2]) 4.
Proof.
  assert (Hshape : has_shape3 1 3 1 [ramp 3 1])
    by (repeat split; repeat constructor).
  split; [exact Hshape|].
  exact (proj1 (length_acts_through_slice_clipping 8 1 3 1 [ramp 3 1] [-1] 4
                  Hshape)).
Defined.

(** X4.  A length entry that slices its batch entry to nothing -- 0, or
    a negative length that cuts off every row -- keeps the call from ever
    returning: whatever the other lengths, the fuel and the generator
    state, the run ends inside a doubling loop; nothing is returned and
    nothing is raised. *)
Theorem empty_slice_never_returns {A : Type} {G : Type} `{RNG : NumpyRandom G}
    (N L_max F : nat) (batch : tensor3 A) (lengths : list Z)
    (i : nat) (n0 : Z) :
  has_shape3 N L_max F batch ->
  nth_error lengths i = Some n0 ->
  (i < N)%nat ->
  adjust_bound n0 (Z.of_nat L_max) = 0 ->
  forall (fuel : nat) (g : G),
    fst (run (unified_length fuel batch lengths) g) = Diverges.
Proof.
  intros Hshape Hi HiN Hzero fuel g.
  destruct (nth_error_split _ _ Hi) as (l1 & l2 & -> & Hlen1).
  unfold unified_length. rewrite run_bind, run_for_loop_app.
  pose proof (run_for_loop_cases fuel batch l1 0%nat [] g) as Hcases.
  destruct (run (for_loop fuel batch 0 l1 []) g) as [[acc|e|] g1].
  - cbn [for_loop]. rewrite run_bind.
    destruct (nth_error batch (0 + length l1)) as [src|] eqn:Hentry.
    + rewrite (loop_body_empty_slice fuel N L_max F batch _ n0 src
                 Hshape Hentry Hzero).
      reflexivity.
    + apply nth_error_None in Hentry. destruct Hshape as [Hsize _].
      simpl in Hentry. lia.
  - destruct Hcases as [_ Hshort]. destruct Hshape as [Hsize _].
    simpl in Hshort. lia.
  - reflexivity.
Qed.

Lemma empty_slice_never_returns_witness :
  has_shape3 2 3 1 [ramp 3 1; ramp 3 1] /\
  forall (fuel : nat) (g : Z),
    fst (run (unified_length fuel [ramp 3 1; ramp 3 1] [2; -3]) g) = Diverges.
Proof.
  assert (Hshape : has_shape3 2 3 1 [ramp 3 1; ramp 3 1])
    by (repeat split; repeat constructor).
  split; [exact Hshape|].
  exact (empty_slice_never_returns 2 3 1 [ramp 3 1; ramp 3 1] [2; -3] 1 (-3)
           Hshape eq_refl ltac:(lia) eq_refl).
Defined.

(** X5.  On a valid batch the window of an element with true length [n]
    repeats with period [n]: row [j + n] of the window is row [j].  When
    [n <= 256] nothing of the sequence is lost: every valid row of the
    source occurs in its window. *)
Theorem short_sequence_window_is_complete
    {A : Type} {G : Type} `{RNG : NumpyRandom G}
    (fuel N L_max F : nat) (batch : tensor3 A) (lengths : list Z) (g : G)
    (index : nat) (src : tensor2 A) (n : Z) :
  (8 <= fuel)%nat ->
  valid_input N L_max F batch lengths ->
  nth_error batch index = Some src ->
  nth_error lengths index = Some n ->
  exists (stacked : tensor3 A) (g' : G) (w : tensor2 A),
    run (unified_length fuel batch lengths) g = (Returns stacked, g') /\
    nth_error stacked index = Some w /\
    (forall j, (j + Z.to_nat n < 256)%nat ->
       nth_error w (j + Z.to_nat n) = nth_error w j) /\
    (n <= 256 ->
     forall k, (k < Z.to_nat n)%nat ->
       exists j, (j < 256)%nat /\ nth_error w j = nth_error src k).
Proof.
  intros Hfuel Hvalid Hentry Hn.
  assert (HN : (1 <= N)%nat).
  { destruct Hvalid as ((Hsize & _) & _).
    assert (index < length batch)%nat by (apply nth_error_Some; congruence).
    lia. }
  destruct (valid_input_entry _ _ _ _ _ _ _ Hvalid Hn)
    as (src' & Hentry' & Hrange & _).
  rewrite Hentry in Hentry'. inversion Hentry'; subst src'.
  destruct (run_unified_length fuel N L_max F batch lengths g Hfuel HN Hvalid)
    as (stacked & g' & Hrun & _ & Hwindows).
  destruct (Hwindows index n src Hn Hentry) as (w & r & Hw & _ & Hrows).
  change (Z.to_nat window_size) with 256%nat in Hrows.
  set (n' := Z.to_nat n) in *.
  assert (Hn' : (1 <= n')%nat) by (unfold n'; lia).
  exists stacked, g', w. split; [assumption|]. split; [assumption|]. split.
  - intros j Hj.
    destruct (Hrows (j + n')%nat Hj) as [_ ->].
    destruct (Hrows j ltac:(lia)) as [_ ->].
    f_equal. replace (r + (j + n'))%nat with ((r + j) + 1 * n')%nat by lia.
    apply Nat.Div0.mod_add.
  - intros Hshort k Hk.
    assert (Hn256 : (n' <= 256)%nat) by (unfold n'; lia).
    pose proof (Nat.div_mod_eq r n') as Hdiv.
    pose proof (Nat.mod_upper_bound r n' ltac:(lia)) as Ha.
    set (a := (r mod n')%nat) in *. set (q := (r / n')%nat) in *.
    destruct (Nat.le_gt_cases a k) as [Hle|Hgt].
    + exists (k - a)%nat. split; [lia|].
      destruct (Hrows (k - a)%nat ltac:(lia)) as [_ ->]. f_equal.
      replace (r + (k - a))%nat with (k + q * n')%nat by nia.
      rewrite Nat.Div0.mod_add. apply Nat.mod_small. exact Hk.
    + exists (k + n' - a)%nat. split; [lia|].
      destruct (Hrows (k + n' - a)%nat ltac:(lia)) as [_ ->]. f_equal.
      replace (r + (k + n' - a))%nat with (k + (q + 1) * n')%nat by nia.
      rewrite Nat.Div0.mod_add. apply Nat.mod_small. exact Hk.
Qed.

Lemma short_sequence_window_is_complete_witness :
  valid_input 1 3 1 [ramp 3 1] [3] /\
  exists (stacked : tensor3 Z) (g' : Z) (w : tensor2 Z),
    run (unified_length 8 [ramp 3 1] [3]) 2 = (Returns stacked, g') /\
    nth_error stacked 0 = Some w /\
    (forall j, (j + Z.to_nat 3 < 256)%nat ->
       nth_error w (j + Z.to_nat 3) = nth_error w j) /\
    (3 <= 256 ->
     forall k, (k < Z.to_nat 3)%nat ->
       exists j, (j < 256)%nat /\ nth_error w j = nth_error (ramp 3 1) k).
Proof.
  assert (Hvalid : valid_input 1 3 1 [ramp 3 1] [3]).
  { concrete_valid_input. }
  split; [exact Hvalid|].
  exact (short_sequence_window_is_complete 8 1 3 1 [ramp 3 1] [3] 2 0
           (ramp 3 1) 3 ltac:(lia) Hvalid eq_refl eq_refl).
Defined.

(** ** True lengths above 128: a single doubling *)

Section OneDoubling.

Context {A : Type} {G : Type} `{RNG : NumpyRandom G}.
Implicit Types (src spec w : tensor2 A) (batch : tensor3 A).

Lemma firstn_skipn_firstn {T : Type} (k a m : nat) (l : list T) :
  (a + k <= m)%nat ->
  firstn k (skipn a (firstn m l)) = firstn k (skipn a l).
Proof.
  intros Hfit. rewrite !firstn_skipn_comm, firstn_firstn.
  rewrite Nat.min_l by assumption. reflexivity.
Qed.

(** With more than 128 valid rows the loop is not entered and the
    iteration is one draw and one slice of two copies. *)
Lemma run_loop_body_one_doubling (fuel : nat) batch (index : nat) (n : Z)
    src (g : G) :
  (1 <= fuel)%nat ->
  nth_error batch index = Some src ->
  128 < n <= py_len src ->
  run (loop_body fuel batch index n) g
  = (Returns
       (Some (py_slice (firstn (Z.to_nat n) src ++ firstn (Z.to_nat n) src)
                (fst (draw g 0 (2 * n - window_size)))
                (fst (draw g 0 (2 * n - window_size)) + window_size))),
     snd (draw g 0 (2 * n - window_size))).
Proof.
  intros Hfuel Hentry Hn. unfold loop_body. rewrite Hentry.
  rewrite py_slice_to_inside by lia.
  set (valid := firstn (Z.to_nat n) src).
  assert (Hd : py_len (valid ++ valid) = 2 * n).
  { rewrite py_len_app. unfold valid.
    rewrite py_len_firstn_inside by lia. lia. }
  assert (Hdouble : double_spec fuel valid = Some (valid ++ valid)).
  { unfold double_spec. rewrite tensor_repeat_2_1.
    destruct fuel as [|fuel]; [lia|]. simpl. rewrite Hd.
    destruct (2 * n <? window_size) eqn:E; [|reflexivity].
    apply Z.ltb_lt in E. unfold window_size in E. lia. }
  rewrite Hdouble.
  rewrite run_take_window_longer by (rewrite Hd; unfold window_size; lia).
  rewrite Hd. reflexivity.
Qed.

End OneDoubling.

(** X6.  A true length [n] above 128 (so also one of 256 or more) is
    doubled once and always cropped at random: the offset [r] is drawn
    from [[0, 2n - 256)] and the window is rows [r .. r + 255] of the valid
    rows followed by themselves.  The window is a contiguous excerpt of
    the source when [r + 256 <= n] or [n <= r]; for [r < n < r + 256] it
    wraps: the valid rows from [r] to the last one, then the first [r +
    256 - n] valid rows. *)
Theorem long_sequence_window_may_wrap
    {A : Type} {G : Type} `{RNG : NumpyRandom G}
    (fuel : nat) (batch : tensor3 A) (index : nat) (n : Z)
    (src : tensor2 A) (g : G) :
  (1 <= fuel)%nat ->
  nth_error batch index = Some src ->
  128 < n <= py_len src ->
  let valid := firstn (Z.to_nat n) src in
  let r := fst (draw g 0 (2 * n - 256)) in
  let w := py_slice (valid ++ valid) r (r + 256) in
  run (loop_body fuel batch index n) g
  = (Returns (Some w), snd (draw g 0 (2 * n - 256))) /\
  0 <= r < 2 * n - 256 /\
  (r + 256 <= n -> w = firstn 256 (skipn (Z.to_nat r) src)) /\
  (n <= r -> w = firstn 256 (skipn (Z.to_nat (r - n)) src)) /\
  (r < n < r + 256 ->
   w = skipn (Z.to_nat r) valid ++ firstn (Z.to_nat (r + 256 - n)) valid).
Proof.
  intros Hfuel Hentry Hn valid r w.
  pose proof (draw_in_range g 0 (2 * n - 256) ltac:(lia)) as Hr.
  fold r in Hr.
  assert (Hvalid : length valid = Z.to_nat n).
  { unfold valid, py_len in *. rewrite length_firstn. lia. }
  assert (Hw : w = firstn 256 (skipn (Z.to_nat r) (valid ++ valid))).
  { unfold w. rewrite py_slice_inside;
      [|lia|rewrite py_len_app; unfold py_len; lia].
    do 2 f_equal. lia. }
  split; [apply run_loop_body_one_doubling; assumption|].
  split; [assumption|]. rewrite Hw. split; [|split].
  - intros Hfit. rewrite skipn_app, firstn_app.
    rewrite length_skipn, Hvalid.
    replace (256 - (Z.to_nat n - Z.to_nat r))%nat with 0%nat by lia.
    rewrite firstn_O, app_nil_r.
    unfold valid. apply firstn_skipn_firstn. lia.
  - intros Hsecond. rewrite skipn_app.
    rewrite skipn_all2 by lia. rewrite Hvalid. cbn [app].
    replace (Z.to_nat r - Z.to_nat n)%nat with (Z.to_nat (r - n)) by lia.
    unfold valid. apply firstn_skipn_firstn. lia.
  - intros Hwrap. rewrite skipn_app, firstn_app.
    rewrite length_skipn, Hvalid.
    replace (Z.to_nat r - Z.to_nat n)%nat with 0%nat by lia.
    rewrite skipn_O.
    rewrite firstn_all2 by (rewrite length_skipn; lia).
    do 2 f_equal. lia.
Qed.

Lemma long_sequence_window_may_wrap_witness :
  run (loop_body 1 [ramp 300 1] 0 260) 250
  = (Returns (Some (py_slice (firstn 260 (ramp 300 1) ++ firstn 260 (ramp 300 1))
                      250 506)), 251) /\
  py_slice (firstn 260 (ramp 300 1) ++ firstn 260 (ramp 300 1)) 250 506
  = skipn 250 (firstn 260 (ramp 300 1)) ++ firstn 246 (firstn 260 (ramp 300 1)).
Proof.
  destruct (long_sequence_window_may_wrap 1 [ramp 300 1] 0 260 (ramp 300 1) 250
              ltac:(lia) eq_refl ltac:(unfold py_len; simpl; lia))
    as (Hrun & _ & _ & _ & Hwrap).
  split; [exact Hrun|]. apply Hwrap. vm_compute. split; reflexivity.
Defined.

Section OneDoublingBatch.

Context {A : Type} {G : Type} `{RNG : NumpyRandom G}.
Implicit Types (src spec w : tensor2 A) (batch : tensor3 A).

Lemma skipn_cons_nth_error {T : Type} (index : nat) (l rest : list T) (x : T) :
  skipn index l = x :: rest ->
  nth_error l index = Some x /\ skipn (S index) l = rest.
Proof.
  revert l. induction index as [|index IH]; intros [|y l] Hskip;
    simpl in Hskip; try discriminate.
  - inversion Hskip. subst. split; reflexivity.
  - apply IH. exact Hskip.
Qed.

Lemma run_for_loop_one_doubling (fuel : nat) batch :
  (1 <= fuel)%nat ->
  forall (entries : tensor3 A) (lengths : list Z),
    Forall2 (fun src n => 128 < n <= py_len src) entries lengths ->
    forall (index : nat) (acc : list (tensor2 A)) (g : G),
      skipn index batch = entries ->
      run (for_loop fuel batch index lengths acc) g
      = (Returns (acc ++ fst (two_copy_windows entries lengths g)),
         snd (two_copy_windows entries lengths g)).
Proof.
  intros Hfuel entries lengths Hall.
  induction Hall as [|src n entries lengths Hn _ IH]; intros index acc g Hskip.
  - simpl. rewrite app_nil_r. reflexivity.
  - destruct (skipn_cons_nth_error _ _ _ _ Hskip) as [Hentry Hrest].
    cbn [for_loop two_copy_windows]. rewrite run_bind.
    rewrite (run_loop_body_one_doubling fuel batch index n src g
               Hfuel Hentry Hn).
    destruct (draw g 0 (2 * n - window_size)) as [r g1]. cbn [fst snd].
    rewrite (IH (S index) _ g1 Hrest).
    destruct (two_copy_windows entries lengths g1) as [ws g'].
    cbn [fst snd]. rewrite <- app_assoc. reflexivity.
Qed.

Lemma valid_input_Forall2 (N L_max F : nat) batch (lengths : list Z) :
  valid_input N L_max F batch lengths ->
  Forall (fun n => 128 < n) lengths ->
  Forall2 (fun src n => 128 < n <= py_len src) batch lengths.
Proof.
  intros ((Hsize & Hshape) & Hlen & Hrange). subst N. revert lengths Hlen Hrange.
  induction Hshape as [|src batch [Hrows _] _ IH];
    intros [|n lengths] Hlen Hrange Hlong; try discriminate; constructor.
  - inversion Hrange; subst. inversion Hlong; subst.
    unfold py_len. lia.
  - inversion Hrange; subst. inversion Hlong; subst.
    apply IH; auto.
Qed.

End OneDoublingBatch.

(** X7.  On a valid, non-empty batch whose true lengths all exceed 128
    one test of the loop condition is enough for every element, and the
    call consumes exactly one random number per element, in batch order:
    element [i] gets the [i]-th draw, taken from [[0, 2 n_i - 256)], and
    its window is the slice of 256 rows starting there in its valid rows
    followed by themselves.  (The self-test at the end of the file, five
    sequences of length 142, is such a call.) *)
Theorem one_draw_per_element_in_order
    {A : Type} {G : Type} `{RNG : NumpyRandom G}
    (fuel N L_max F : nat) (batch : tensor3 A) (lengths : list Z) (g : G) :
  (1 <= fuel)%nat -> (1 <= N)%nat ->
  valid_input N L_max F batch lengths ->
  Forall (fun n => 128 < n) lengths ->
  run (unified_length fuel batch lengths) g
  = (Returns (fst (two_copy_windows batch lengths g)),
     snd (two_copy_windows batch lengths g)).
Proof.
  intros Hfuel HN Hvalid Hlong.
  pose proof (valid_input_Forall2 N L_max F batch lengths Hvalid Hlong)
    as Hall.
  pose proof (run_for_loop_one_doubling fuel batch Hfuel batch lengths Hall
                0%nat [] g eq_refl) as Hrun.
  simpl in Hrun.
  destruct Hvalid as (Hshape & Hlen & _).
  pose proof (for_loop_windows_shape fuel N L_max F batch lengths g _ _
                Hshape Hrun) as Hwin.
  unfold unified_length. rewrite (run_bind_returns _ _ _ _ _ Hrun).
  rewrite (torch_stack_same_shape (Z.to_nat window_size) F);
    [reflexivity| |assumption].
  destruct Hall as [|src n entries lengths' _ _]; [simpl in *; lia|].
  cbn [two_copy_windows].
  destruct (draw g 0 (2 * n - window_size)) as [r g1].
  destruct (two_copy_windows entries lengths' g1). discriminate.
Qed.

Lemma one_draw_per_element_in_order_witness :
  valid_input 2 142 1 [ramp 142 1; ramp 142 1] [142; 130] /\
  run (unified_length 1 [ramp 142 1; ramp 142 1] [142; 130]) 30
  = (Returns [py_slice (ramp 142 1 ++ ramp 142 1) 2 258;
              py_slice (ramp 130 1 ++ ramp 130 1) 3 259], 32).
Proof.
  assert (Hvalid : valid_input 2 142 1 [ramp 142 1; ramp 142 1] [142; 130]).
  { concrete_valid_input. }
  split; [exact Hvalid|].
  exact (one_draw_per_element_in_order 1 2 142 1 [ramp 142 1; ramp 142 1]
           [142; 130] 30 ltac:(lia) ltac:(lia) Hvalid
           ltac:(repeat constructor)).
Defined.

(** ** Batches one after the other *)

Section Composition.

Context {A : Type} {G : Type} `{RNG : NumpyRandom G}.
Implicit Types (src spec w : tensor2 A) (batch : tensor3 A).

(** The list built so far is only extended. *)
Lemma run_for_loop_acc (fuel : nat) batch :
  forall (lengths : list Z) (index : nat) (acc : list (tensor2 A)) (g : G),
    run (for_loop fuel batch index lengths acc) g
    = match run (for_loop fuel batch index lengths []) g with
      | (Returns ws, g') => (Returns (acc ++ ws), g')
      | (Raises e, g') => (Raises e, g')
      | (Diverges, g') => (Diverges, g')
      end.
Proof.
  induction lengths as [|n rest IH]; intros index acc g.
  - simpl. rewrite app_nil_r. reflexivity.
  - cbn [for_loop]. rewrite !run_bind.
    destruct (run (loop_body fuel batch index n) g) as [[appended|e|] g1];
      try reflexivity.
    rewrite (IH (S index) (match appended with
                           | Some window => acc ++ [window]
                           | None => acc
                           end)).
    rewrite (IH (S index) (match appended with
                           | Some window => [] ++ [window]
                           | None => []
                           end)).
    destruct (run (for_loop fuel batch (S index) rest []) g1)
      as [[ws|e|] g']; try reflexivity.
    destruct appended as [window|]; simpl;
      rewrite <- ?app_assoc; reflexivity.
Qed.

(** Positions past a first batch are positions of the second. *)
Lemma run_for_loop_shift (fuel : nat) (batch1 batch2 : tensor3 A) :
  forall (lengths : list Z) (index : nat) (acc : list (tensor2 A)) (g : G),
    run (for_loop fuel (batch1 ++ batch2) (length batch1 + index) lengths acc) g
    = run (for_loop fuel batch2 index lengths acc) g.
Proof.
  induction lengths as [|n rest IH]; intros index acc g; [reflexivity|].
  cbn [for_loop]. apply run_bind_ext.
  - unfold loop_body. rewrite nth_error_app2 by lia.
    replace (length batch1 + index - length batch1)%nat with index by lia.
    reflexivity.
  - intros appended g1. rewrite <- Nat.add_succ_r. apply IH.
Qed.

(** A call that returns has returned what the loop built. *)
Lemma run_unified_length_returns_inv (fuel : nat) batch (lengths : list Z)
    (g g' : G) (stacked : tensor3 A) :
  run (unified_length fuel batch lengths) g = (Returns stacked, g') ->
  run (for_loop fuel batch 0 lengths []) g = (Returns stacked, g') /\
  stacked <> [].
Proof.
  unfold unified_length. rewrite run_bind.
  destruct (run (for_loop fuel batch 0 lengths []) g) as [[ws|e|] g1];
    try discriminate.
  destruct ws as [|w rest]; [discriminate|].
  simpl. destruct (forallb (same_size w) rest); [|discriminate].
  intros Hret. inversion Hret; subst. split; [reflexivity|discriminate].
Qed.

End Composition.

(** X8.  Windowing two batches in one call is windowing them one after
    the other: if the first batch (with as many lengths as entries)
    returns [s1] and leaves the generator in a state from which the second
    returns [s2], then the call on the concatenated batch and the
    concatenated lengths returns [s1 ++ s2] and leaves the generator in
    the state the second call left. *)
Theorem batches_compose {A : Type} {G : Type} `{RNG : NumpyRandom G}
    (fuel N1 N2 L_max F : nat) (batch1 batch2 : tensor3 A)
    (lengths1 lengths2 : list Z) (g g1 g2 : G) (s1 s2 : tensor3 A) :
  has_shape3 N1 L_max F batch1 ->
  has_shape3 N2 L_max F batch2 ->
  length lengths1 = N1 ->
  run (unified_length fuel batch1 lengths1) g = (Returns s1, g1) ->
  run (unified_length fuel batch2 lengths2) g1 = (Returns s2, g2) ->
  run (unified_length fuel (batch1 ++ batch2) (lengths1 ++ lengths2)) g
  = (Returns (s1 ++ s2), g2).
Proof.
  intros Hshape1 Hshape2 Hlen1 Hrun1 Hrun2.
  destruct (run_unified_length_returns_inv _ _ _ _ _ _ Hrun1) as [Hloop1 Hne1].
  destruct (run_unified_length_returns_inv _ _ _ _ _ _ Hrun2) as [Hloop2 _].
  pose proof (for_loop_windows_shape _ _ _ _ _ _ _ _ _ Hshape1 Hloop1) as Hwin1.
  pose proof (for_loop_windows_shape _ _ _ _ _ _ _ _ _ Hshape2 Hloop2) as Hwin2.
  assert (Hsize1 : length batch1 = length lengths1)
    by (destruct Hshape1; congruence).
  assert (Hloop :
            run (for_loop fuel (batch1 ++ batch2) 0 (lengths1 ++ lengths2) []) g
            = (Returns (s1 ++ s2), g2)).
  { rewrite run_for_loop_app.
    rewrite run_for_loop_ignores_rest by (simpl; lia).
    rewrite Hloop1. simpl. rewrite <- Hsize1.
    rewrite <- (Nat.add_0_r (length batch1)).
    rewrite run_for_loop_shift, run_for_loop_acc, Hloop2. reflexivity. }
  unfold unified_length. rewrite (run_bind_returns _ _ _ _ _ Hloop).
  rewrite (torch_stack_same_shape (Z.to_nat window_size) F);
    [reflexivity| |apply Forall_app; split; assumption].
  destruct s1; [contradiction|discriminate].
Qed.

Lemma batches_compose_witness :
  run (unified_length 8 ([ramp 3 1] ++ [ramp 3 1]) ([3] ++ [2])) 5
  = (Returns ([py_slice (copies 128 (ramp 3 1)) 5 261]
              ++ [copies 128 (firstn 2 (ramp 3 1))]), 6).
Proof.
  assert (Hshape : has_shape3 1 3 1 [ramp 3 1])
    by (repeat split; repeat constructor).
  apply (batches_compose 8 1 1 3 1 [ramp 3 1] [ramp 3 1] [3] [2] 5 6 6
           _ _ Hshape Hshape eq_refl);
    vm_compute; reflexivity.
Defined.

(** X14.  Which valid true lengths are cropped at random: a true length
    that is one of 1, 2, 4, ..., 128 doubles to exactly 256 rows and its
    window is built without a random number ([256 / n] copies of the valid
    rows); every other valid true length doubles to more than 256 rows
    and costs exactly one call of [randint], with bounds 0 and the excess
    of the doubled length over 256. *)
Theorem random_crop_unless_power_of_two {A : Type}
    (fuel : nat) (batch : tensor3 A) (index : nat) (n : Z) (src : tensor2 A) :
  (8 <= fuel)%nat ->
  nth_error batch index = Some src ->
  1 <= n <= py_len src ->
  let valid := firstn (Z.to_nat n) src in
  (In n [1; 2; 4; 8; 16; 32; 64; 128] ->
   loop_body fuel batch index n
   = Ret (Some (copies (Z.to_nat (256 / n)) valid)))
  /\
  (~ In n [1; 2; 4; 8; 16; 32; 64; 128] ->
   exists (m : nat) (d : Z),
     (1 <= m <= 8)%nat /\
     d = 2 ^ Z.of_nat m * n /\
     256 < d /\
     loop_body fuel batch index n
     = Randint 0 (d - 256)
         (fun r => Ret (Some (py_slice (copies (2 ^ m) valid) r (r + 256))))).
Proof.
  intros Hfuel Hentry Hn valid.
  destruct (loop_body_valid fuel batch index n src Hfuel Hentry Hn)
    as (m & Hm & Hbody & Hge & Hmin).
  fold valid in Hbody, Hge, Hmin.
  assert (Hlen : py_len (copies (2 ^ m) valid) = 2 ^ Z.of_nat m * n).
  { rewrite py_len_copies. unfold valid.
    rewrite py_len_firstn_inside by lia.
    rewrite Nat2Z.inj_pow. reflexivity. }
  rewrite Hlen in Hge, Hmin. unfold window_size in Hge, Hmin.
  assert (Hcases : (m = 1 \/ m = 2 \/ m = 3 \/ m = 4 \/
                    m = 5 \/ m = 6 \/ m = 7 \/ m = 8)%nat) by lia.
  split.
  - intros Hin. rewrite Hbody.
    assert (Hexact : 2 ^ Z.of_nat m * n = 256 /\
                     Z.to_nat (256 / n) = (2 ^ m)%nat).
    { simpl in Hin.
      destruct Hin as [<-|[<-|[<-|[<-|[<-|[<-|[<-|[<-|[]]]]]]]]];
        destruct Hcases as [ -> | [ -> | [ -> | [ -> | [ -> | [ -> | [ -> | -> ]]]]]]];
        cbn in Hge, Hmin; try lia; split; reflexivity. }
    destruct Hexact as [Hexact ->].
    apply take_window_exact. rewrite Hlen. exact Hexact.
  - intros Hnot. exists m, (2 ^ Z.of_nat m * n).
    assert (Hneq : 2 ^ Z.of_nat m * n <> 256).
    { intros Hexact. apply Hnot. simpl.
      destruct Hcases as [ -> | [ -> | [ -> | [ -> | [ -> | [ -> | [ -> | -> ]]]]]]];
        match type of Hexact with
        | context [2 ^ Z.of_nat ?k] =>
            let v := eval vm_compute in (2 ^ Z.of_nat k) in
            change (2 ^ Z.of_nat k) with v in Hexact
        end; lia. }
    split; [assumption|]. split; [reflexivity|]. split; [lia|].
    rewrite Hbody, take_window_longer by (rewrite Hlen; unfold window_size; lia).
    rewrite Hlen. reflexivity.
Qed.

Lemma random_crop_unless_power_of_two_witness :
  loop_body 8 [ramp 40 1] 0 32
  = Ret (Some (copies (Z.to_nat (256 / 32)) (firstn (Z.to_nat 32) (ramp 40 1)))).
Proof.
  apply (proj1 (random_crop_unless_power_of_two 8 [ramp 40 1] 0 32 (ramp 40 1)
                  ltac:(lia) eq_refl ltac:(unfold py_len; simpl; lia))).
  simpl. tauto.
Defined.

(** ** Malformed pairings of batch and lengths *)

Section Malformed.

Context {A : Type} {G : Type} `{RNG : NumpyRandom G}.
Implicit Types (src spec w : tensor2 A) (batch : tensor3 A).

Lemma has_shape3_firstn (N L_max F k : nat) batch :
  has_shape3 N L_max F batch -> (k <= N)%nat ->
  has_shape3 k L_max F (firstn k batch).
Proof.
  intros [Hsize Hshape] Hk. split.
  - rewrite length_firstn. lia.
  - apply Forall_forall. intros src Hin.
    rewrite Forall_forall in Hshape. apply Hshape.
    eapply In_firstn_inv. exact Hin.
Qed.

(** With more lengths than entries the loop cannot run to its end. *)
Lemma run_unified_length_too_many_lengths (fuel N L_max F : nat) batch
    (lengths : list Z) (g : G) :
  has_shape3 N L_max F batch ->
  (N < length lengths)%nat ->
  match run (unified_length fuel batch lengths) g with
  | (Returns _, _) => False
  | (Raises e, _) => e = IndexError
  | (Diverges, _) => True
  end.
Proof.
  intros [Hsize _] Hmore. unfold unified_length. rewrite run_bind.
  pose proof (run_for_loop_cases fuel batch lengths 0%nat [] g) as Hcases.
  destruct (run (for_loop fuel batch 0 lengths []) g) as [[ws|e|] g1].
  - destruct Hcases as (_ & _ & _ & [Hfit|Hnil] & _).
    + simpl in Hfit. lia.
    + subst lengths. simpl in Hmore. lia.
  - exact (proj1 Hcases).
  - exact I.
Qed.

(** With valid lengths for every entry and at least one more, the lookup
    of the first missing entry raises. *)
Lemma run_unified_length_index_error (fuel N L_max F : nat) batch
    (lengths : list Z) (g : G) :
  has_shape3 N L_max F batch ->
  (N < length lengths)%nat ->
  (8 <= fuel)%nat ->
  Forall (fun n => 1 <= n <= Z.of_nat L_max) (firstn N lengths) ->
  exists g' : G,
    run (unified_length fuel batch lengths) g = (Raises IndexError, g').
Proof.
  intros Hshape Hmore Hfuel Hprefix.
  assert (Hvalid : valid_input N L_max F batch (firstn N lengths)).
  { split; [assumption|]. split; [rewrite length_firstn; lia|assumption]. }
  destruct (run_for_loop fuel batch Hfuel (firstn N lengths) 0%nat [] g)
    as (ws & g' & Hrun & _ & _).
  { intros i n Hi.
    destruct (valid_input_entry _ _ _ _ _ _ _ Hvalid Hi)
      as (src & Hentry & Hn & _).
    exists src. split; assumption. }
  exists g'. unfold unified_length.
  rewrite <- (firstn_skipn N lengths) at 1.
  rewrite run_bind, run_for_loop_app, Hrun.
  destruct (skipn N lengths) as [|extra more] eqn:Hrest.
  { pose proof (length_skipn N lengths) as Hlen.
    rewrite Hrest in Hlen. simpl in Hlen. lia. }
  cbn [for_loop]. rewrite run_bind. unfold loop_body.
  assert (Hnone : nth_error batch (0 + length (firstn N lengths)) = None).
  { apply nth_error_None. destruct Hshape as [Hsize _].
    rewrite length_firstn. simpl. lia. }
  rewrite Hnone. reflexivity.
Qed.

(** Entries of the batch past the last length are not looked at. *)
Lemma run_unified_length_cut (fuel N L_max F : nat) batch
    (lengths : list Z) (g : G) :
  has_shape3 N L_max F batch ->
  (length lengths <= N)%nat ->
  run (unified_length fuel batch lengths) g
  = run (unified_length fuel (firstn (length lengths) batch) lengths) g.
Proof.
  intros [Hsize _] Hfew. unfold unified_length.
  apply run_bind_ext; [|reflexivity].
  rewrite <- (firstn_skipn (length lengths) batch) at 1.
  apply run_for_loop_ignores_rest. rewrite length_firstn. simpl. lia.
Qed.

(** What a call can raise. *)
Lemma run_unified_length_raises (fuel N L_max F : nat) batch
    (lengths : list Z) (g g' : G) (e : exn) :
  has_shape3 N L_max F batch ->
  run (unified_length fuel batch lengths) g = (Raises e, g') ->
  (e = IndexError /\ (N < length lengths)%nat) \/
  (e = RuntimeError /\ lengths = []).
Proof.
  intros Hshape. unfold unified_length. rewrite run_bind.
  pose proof (run_for_loop_cases fuel batch lengths 0%nat [] g) as Hcases.
  pose proof (for_loop_windows_shape fuel N L_max F batch lengths g) as Hwin.
  destruct (run (for_loop fuel batch 0 lengths []) g) as [[ws|e1|] g1];
    try discriminate.
  - destruct Hcases as (ws' & Hout & Hcount & _). simpl in Hout. subst ws'.
    specialize (Hwin g1 ws Hshape eq_refl).
    destruct ws as [|w rest].
    + simpl. intros Hraise. inversion Hraise; subst.
      right. split; [reflexivity|].
      destruct lengths; [reflexivity|discriminate].
    + rewrite (torch_stack_same_shape (Z.to_nat window_size) F);
        [discriminate|discriminate|assumption].
  - destruct Hcases as [-> Hshort]. intros Hraise. inversion Hraise; subst.
    left. split; [reflexivity|].
    destruct Hshape as [Hsize _]. simpl in Hshort. lia.
Qed.

End Malformed.

(** C3 (amended).  [forward] validates nothing and raises no error of
    its own: on a batch of shape [(N, L_max, F)] the only exceptions a
    call can raise are [IndexError], which needs more than [N] lengths,
    and the [RuntimeError] of [torch.stack], which needs an empty length
    vector.  Moreover:
    - with more than [N] lengths the call never returns a result, and the
      only exception it can raise is the [IndexError] of looking up the
      first missing batch entry; that [IndexError] is raised (and nothing
      is returned) when the first [N] lengths lie in [[1, L_max]];
    - with at most [N] lengths the batch entries past the last length are
      ignored: the call does exactly what it does on the batch cut to its
      first [len(lengths)] entries, so with at least one length, all in
      [[1, L_max]], it returns one window per length, a tensor of shape
      [(len(lengths), 256, F)], instead of failing;
    - a length above [L_max] is not rejected: the call does exactly what
      it does with every length [n] replaced by [min(n, L_max)], so with
      [N >= 1], [L_max >= 1] and [N] lengths that are all [>= 1] it
      returns a tensor of shape [(N, 256, F)]. *)
Theorem malformed_input_is_not_rejected
    {A : Type} {G : Type} `{RNG : NumpyRandom G}
    (fuel N L_max F : nat) (batch : tensor3 A) (lengths : list Z) (g : G) :
  has_shape3 N L_max F batch ->
  (forall (e : exn) (g' : G),
     run (unified_length fuel batch lengths) g = (Raises e, g') ->
     (e = IndexError /\ (N < length lengths)%nat) \/
     (e = RuntimeError /\ lengths = []))
  /\
  ((N < length lengths)%nat ->
   (forall (stacked : tensor3 A) (g' : G),
      run (unified_length fuel batch lengths) g <> (Returns stacked, g')) /\
   (forall (e : exn) (g' : G),
      run (unified_length fuel batch lengths) g = (Raises e, g') ->
      e = IndexError) /\
   ((8 <= fuel)%nat ->
    Forall (fun n => 1 <= n <= Z.of_nat L_max) (firstn N lengths) ->
    exists g' : G,
      run (unified_length fuel batch lengths) g = (Raises IndexError, g')))
  /\
  ((length lengths <= N)%nat ->
   run (unified_length fuel batch lengths) g
   = run (unified_length fuel (firstn (length lengths) batch) lengths) g /\
   ((8 <= fuel)%nat -> (1 <= length lengths)%nat ->
    Forall (fun n => 1 <= n <= Z.of_nat L_max) lengths ->
    exists (stacked : tensor3 A) (g' : G),
      run (unified_length fuel batch lengths) g = (Returns stacked, g') /\
      has_shape3 (length lengths) 256 F stacked))
  /\
  (run (unified_length fuel batch lengths) g
   = run (unified_length fuel batch
            (map (Z.min (Z.of_nat L_max)) lengths)) g /\
   ((8 <= fuel)%nat -> (1 <= N)%nat -> (1 <= L_max)%nat ->
    length lengths = N -> Forall (fun n => 1 <= n) lengths ->
    exists (stacked : tensor3 A) (g' : G),
      run (unified_length fuel batch lengths) g = (Returns stacked, g') /\
      has_shape3 N 256 F stacked)).
Proof.
  intros Hshape. split; [|split; [|split]].
  - intros e g' Hraise.
    eapply run_unified_length_raises; eauto.
  - intros Hmore.
    pose proof (run_unified_length_too_many_lengths fuel N L_max F batch
                  lengths g Hshape Hmore) as Hcases.
    split; [|split].
    + intros stacked g' Hrun. rewrite Hrun in Hcases. exact Hcases.
    + intros e g' Hrun. rewrite Hrun in Hcases. exact Hcases.
    + intros Hfuel Hprefix.
      eapply run_unified_length_index_error; eauto.
  - intros Hfew.
    pose proof (run_unified_length_cut fuel N L_max F batch lengths g
                  Hshape Hfew) as Hcut.
    split; [exact Hcut|].
    intros Hfuel Hone Hrange. rewrite Hcut.
    assert (Hvalid : valid_input (length lengths) L_max F
                       (firstn (length lengths) batch) lengths).
    { split; [eapply has_shape3_firstn; eauto|]. split; [reflexivity|assumption]. }
    destruct (run_unified_length fuel _ L_max F _ lengths g Hfuel Hone Hvalid)
      as (stacked & g' & Hrun & Hstacked & _).
    exists stacked, g'. split; assumption.
  - assert (Hsame :
              run (unified_length fuel batch lengths) g
              = run (unified_length fuel batch
                       (map (Z.min (Z.of_nat L_max)) lengths)) g).
    { unfold unified_length. apply run_bind_ext; [|reflexivity].
      apply (run_for_loop_clipped fuel N L_max F batch Hshape). }
    split; [exact Hsame|].
    intros Hfuel HN HL Hlen Hlong.
    assert (Hvalid : valid_input N L_max F batch
                       (map (Z.min (Z.of_nat L_max)) lengths)).
    { split; [assumption|]. split; [rewrite length_map; assumption|].
      apply Forall_map. eapply Forall_impl; [|exact Hlong].
      simpl. intros n Hn. lia. }
    destruct (run_unified_length fuel N L_max F batch _ g Hfuel HN Hvalid)
      as (stacked & g' & Hrun & Hstacked & _).
    exists stacked, g'. rewrite Hsame. split; assumption.
Qed.

Lemma malformed_input_is_not_rejected_witness :
  has_shape3 2 3 1 [ramp 3 1; ramp 3 1] /\
  (exists g' : Z,
     run (unified_length 8 [ramp 3 1; ramp 3 1] [2; 3; 1]) 0
     = (Raises IndexError, g')) /\
  (exists (stacked : tensor3 Z) (g' : Z),
     run (unified_length 8 [ramp 3 1; ramp 3 1] [2]) 0 = (Returns stacked, g') /\
     has_shape3 (length [2]) 256 1 stacked) /\
  (exists (stacked : tensor3 Z) (g' : Z),
     run (unified_length 8 [ramp 3 1; ramp 3 1] [5; 7]) 0
     = (Returns stacked, g') /\
     has_shape3 2 256 1 stacked).
Proof.
  assert (Hshape : has_shape3 2 3 1 [ramp 3 1; ramp 3 1])
    by (repeat split; repeat constructor).
  split; [exact Hshape|]. split; [|split].
  - destruct (malformed_input_is_not_rejected 8 2 3 1 [ramp 3 1; ramp 3 1]
                [2; 3; 1] 0 Hshape) as (_ & Hmore & _).
    destruct (Hmore ltac:(simpl; lia)) as (_ & _ & Hraise).
    apply Hraise; [lia|simpl; repeat constructor; lia].
  - destruct (malformed_input_is_not_rejected 8 2 3 1 [ramp 3 1; ramp 3 1]
                [2] 0 Hshape) as (_ & _ & Hfew & _).
    destruct (Hfew ltac:(simpl; lia)) as [_ Hreturn].
    apply Hreturn; [lia|simpl; lia|repeat constructor; lia].
  - destruct (malformed_input_is_not_rejected 8 2 3 1 [ramp 3 1; ramp 3 1]
                [5; 7] 0 Hshape) as (_ & _ & _ & _ & Hreturn).
    apply Hreturn; [lia|lia|lia|reflexivity|repeat constructor; lia].
Defined.

(** ** The random source *)

Section RandomSource.

Context {A : Type} {G : Type} `{RNG : NumpyRandom G}.
Implicit Types (src spec w : tensor2 A) (batch : tensor3 A).

Lemma fold_bind_keyword_None (keywords : list (string * pyobj G)) :
  fold_left bind_keyword keywords None = None.
Proof. induction keywords as [|kw rest IH]; [reflexivity|exact IH]. Qed.

(** A keyword that names neither flag makes the binding fail. *)
Lemma fold_bind_keyword_unexpected (keywords : list (string * pyobj G))
    (name : string) (v : pyobj G) :
  In (name, v) keywords ->
  name <> "return_all_outs"%string -> name <> "return_only_refs"%string ->
  forall bound, fold_left bind_keyword keywords bound = None.
Proof.
  intros Hin Hall Href.
  induction keywords as [|kw rest IH]; intros bound; [contradiction|].
  destruct Hin as [->|Hin]; [|apply IH; assumption].
  simpl. destruct bound as [[a b]|]; [|apply fold_bind_keyword_None].
  simpl.
  destruct (String.eqb_spec name "return_all_outs"); [contradiction|].
  destruct (String.eqb_spec name "return_only_refs"); [contradiction|].
  apply fold_bind_keyword_None.
Qed.

(** On a valid entry the iteration returns the window at the offset it
    draws, or at offset 0 without a draw. *)
Lemma run_loop_body_window_at (fuel : nat) batch (index : nat) (n : Z)
    src (g : G) :
  (8 <= fuel)%nat ->
  nth_error batch index = Some src ->
  1 <= n <= py_len src ->
  window_size <= py_len (doubled fuel src n) /\
  run (loop_body fuel batch index n) g
  = if py_len (doubled fuel src n) >? window_size
    then (Returns
            (Some (window_at fuel src n
                     (fst (draw g 0 (py_len (doubled fuel src n)
                                     - window_size))))),
          snd (draw g 0 (py_len (doubled fuel src n) - window_size)))
    else (Returns (Some (window_at fuel src n 0)), g).
Proof.
  intros Hfuel Hentry Hn.
  destruct (double_spec_spec fuel (py_slice_to src n))
    as (out & m & Hrun & _ & _ & Hge & _);
    [rewrite py_slice_to_inside, py_len_firstn_inside by lia; lia
    |assumption|].
  unfold loop_body, window_at, doubled. rewrite Hentry, Hrun.
  split; [assumption|].
  destruct (py_len out >? window_size) eqn:Hcmp.
  - rewrite Z.gtb_ltb in Hcmp. apply Z.ltb_lt in Hcmp.
    apply run_take_window_longer. assumption.
  - rewrite Z.gtb_ltb in Hcmp. apply Z.ltb_ge in Hcmp.
    assert (Hexact : py_len out = window_size) by lia.
    rewrite take_window_exact by assumption.
    simpl run. do 3 f_equal.
    rewrite py_slice_inside by (unfold window_size in *; lia).
    replace (Z.to_nat (0 + window_size - 0)) with (length out)
      by (unfold py_len in Hexact; lia).
    change (Z.to_nat 0) with 0%nat. rewrite skipn_O.
    symmetry. apply firstn_all.
Qed.

Lemma run_for_loop_windows_at (fuel : nat) batch :
  (8 <= fuel)%nat ->
  forall (entries : tensor3 A) (lengths : list Z),
    Forall2 (fun src n => 1 <= n <= py_len src) entries lengths ->
    forall (index : nat) (acc : list (tensor2 A)) (g : G),
      skipn index batch = entries ->
      run (for_loop fuel batch index lengths acc) g
      = (Returns (acc ++ windows_at fuel entries lengths
                           (fst (drawn_offsets fuel entries lengths g))),
         snd (drawn_offsets fuel entries lengths g)) /\
      Forall2 (fun r (sn : tensor2 A * Z) =>
                 0 <= r <= py_len (doubled fuel (fst sn) (snd sn))
                           - window_size)
              (fst (drawn_offsets fuel entries lengths g))
              (combine entries lengths).
Proof.
  intros Hfuel entries lengths Hall.
  induction Hall as [|src n entries lengths Hn _ IH]; intros index acc g Hskip.
  - simpl. rewrite app_nil_r. split; [reflexivity|constructor].
  - destruct (skipn_cons_nth_error _ _ _ _ Hskip) as [Hentry Hrest].
    destruct (run_loop_body_window_at fuel batch index n src g
                Hfuel Hentry Hn) as [Hge Hbody].
    cbn [for_loop drawn_offsets combine]. rewrite run_bind, Hbody.
    destruct (py_len (doubled fuel src n) >? window_size) eqn:Hcmp.
    + rewrite Z.gtb_ltb in Hcmp. apply Z.ltb_lt in Hcmp.
      pose proof (draw_in_range g 0 (py_len (doubled fuel src n) - window_size)
                    ltac:(lia)) as Hr.
      destruct (draw g 0 (py_len (doubled fuel src n) - window_size))
        as [r g1]. cbn [fst snd] in *.
      destruct (IH (S index) (acc ++ [window_at fuel src n r]) g1 Hrest)
        as [Hrun Hbounds].
      rewrite Hrun.
      destruct (drawn_offsets fuel entries lengths g1) as [rs g'].
      cbn [fst snd windows_at] in *. rewrite <- app_assoc. split; [reflexivity|].
      constructor; [simpl; lia|exact Hbounds].
    + destruct (IH (S index) (acc ++ [window_at fuel src n 0]) g Hrest)
        as [Hrun Hbounds].
      rewrite Hrun.
      destruct (drawn_offsets fuel entries lengths g) as [rs g'].
      cbn [fst snd windows_at] in *. rewrite <- app_assoc. split; [reflexivity|].
      constructor; [simpl; lia|exact Hbounds].
Qed.

Lemma valid_input_entries (N L_max F : nat) batch (lengths : list Z) :
  valid_input N L_max F batch lengths ->
  Forall2 (fun src n => 1 <= n <= py_len src) batch lengths.
Proof.
  intros ((Hsize & Hshape) & Hlen & Hrange). subst N. revert lengths Hlen Hrange.
  induction Hshape as [|src batch [Hrows _] _ IH];
    intros [|n lengths] Hlen Hrange; try discriminate; constructor.
  - inversion Hrange; subst. unfold py_len. lia.
  - inversion Hrange; subst. apply IH; auto.
Qed.

(** The windowing stage on a valid, non-empty batch returns the windows
    at the offsets drawn from the ambient state. *)
Lemma run_unified_length_windows_at (fuel N L_max F : nat) batch
    (lengths : list Z) (g : G) :
  (8 <= fuel)%nat -> (1 <= N)%nat ->
  valid_input N L_max F batch lengths ->
  run (unified_length fuel batch lengths) g
  = (Returns (windows_at fuel batch lengths
                (fst (drawn_offsets fuel batch lengths g))),
     snd (drawn_offsets fuel batch lengths g)) /\
  has_shape3 N 256 F
    (windows_at fuel batch lengths (fst (drawn_offsets fuel batch lengths g))) /\
  Forall2 (fun r (sn : tensor2 A * Z) =>
             0 <= r <= py_len (doubled fuel (fst sn) (snd sn)) - window_size)
          (fst (drawn_offsets fuel batch lengths g))
          (combine batch lengths).
Proof.
  intros Hfuel HN Hvalid.
  destruct (run_for_loop_windows_at fuel batch Hfuel batch lengths
              (valid_input_entries _ _ _ _ _ Hvalid) 0%nat [] g eq_refl)
    as [Hloop Hbounds].
  simpl in Hloop.
  destruct (run_unified_length fuel N L_max F batch lengths g Hfuel HN Hvalid)
    as (stacked & g'' & Hrun & Hshape & _).
  destruct (run_unified_length_returns_inv _ _ _ _ _ _ Hrun) as [Hloop' _].
  rewrite Hloop in Hloop'. inversion Hloop'; subst stacked g''.
  split; [assumption|]. split; assumption.
Qed.

End RandomSource.

(** C7 (amended).  The normalizer has no parameter for a random source:
    besides the two tensors a call can pass only the two flags -- a third
    further positional argument, or a keyword other than
    [return_all_outs] and [return_only_refs], is a [TypeError] -- and what
    is passed for a flag is only handed to the style encoder behind the
    windowing stage.  The crop offsets are drawn from the ambient state of
    [numpy.random], in batch order, one for each element whose doubled
    length exceeds 256.  On a valid, non-empty batch the output of the
    windowing stage is determined by its inputs and these offsets: two
    calls with identical inputs that start from the same ambient state
    produce identical outputs and leave the same state; from different
    ambient states the outputs may differ in content (in the offsets) but
    always have the same shape [(N, 256, F)]. *)
Theorem random_source_is_the_ambient_state
    {A : Type} {G : Type} `{RNG : NumpyRandom G} {E : Type}
    (gst : tensor3 A -> pyobj G -> pyobj G -> E)
    (fuel N L_max F : nat) (batch : tensor3 A) (lengths : list Z)
    (positional : list (pyobj G)) (keywords : list (string * pyobj G))
    (g1 g2 : G) :
  (8 <= fuel)%nat -> (1 <= N)%nat ->
  valid_input N L_max F batch lengths ->
  ((2 < length positional)%nat ->
   call_forward gst fuel batch lengths positional keywords = None) /\
  (forall (name : string) (v : pyobj G),
     In (name, v) keywords ->
     name <> "return_all_outs"%string -> name <> "return_only_refs"%string ->
     call_forward gst fuel batch lengths positional keywords = None) /\
  (forall p : prog E,
     call_forward gst fuel batch lengths positional keywords = Some p ->
     exists a b : pyobj G,
       p = bind (unified_length fuel batch lengths)
             (fun stacked => Ret (gst stacked a b))) /\
  (forall g : G,
     run (unified_length fuel batch lengths) g
     = (Returns (windows_at fuel batch lengths
                   (fst (drawn_offsets fuel batch lengths g))),
        snd (drawn_offsets fuel batch lengths g)) /\
     Forall2 (fun r (sn : tensor2 A * Z) =>
                0 <= r <= py_len (doubled fuel (fst sn) (snd sn))
                          - window_size)
             (fst (drawn_offsets fuel batch lengths g))
             (combine batch lengths)) /\
  exists (stacked1 stacked2 : tensor3 A) (g1' g2' : G),
    run (unified_length fuel batch lengths) g1 = (Returns stacked1, g1') /\
    run (unified_length fuel batch lengths) g2 = (Returns stacked2, g2') /\
    has_shape3 N 256 F stacked1 /\
    has_shape3 N 256 F stacked2 /\
    (g1 = g2 -> stacked1 = stacked2 /\ g1' = g2').
Proof.
  intros Hfuel HN Hvalid. split; [|split; [|split; [|split]]].
  - intros Hmany. unfold call_forward, bind_arguments.
    destruct positional as [|a [|b [|c rest]]]; simpl in Hmany; try lia.
    simpl. rewrite fold_bind_keyword_None. reflexivity.
  - intros name v Hin Hall Href. unfold call_forward, bind_arguments.
    rewrite (fold_bind_keyword_unexpected keywords name v Hin Hall Href).
    reflexivity.
  - intros p. unfold call_forward.
    destruct (bind_arguments positional keywords) as [[a b]|];
      [|discriminate].
    intros Hp. inversion Hp. exists a, b. reflexivity.
  - intros g.
    destruct (run_unified_length_windows_at fuel N L_max F batch lengths g
                Hfuel HN Hvalid) as (Hrun & _ & Hbounds).
    split; assumption.
  - destruct (run_unified_length_windows_at fuel N L_max F batch lengths g1
                Hfuel HN Hvalid) as (Hrun1 & Hshape1 & _).
    destruct (run_unified_length_windows_at fuel N L_max F batch lengths g2
                Hfuel HN Hvalid) as (Hrun2 & Hshape2 & _).
    eexists _, _, _, _.
    split; [exact Hrun1|]. split; [exact Hrun2|].
    split; [assumption|]. split; [assumption|].
    intros ->. split; reflexivity.
Qed.

Lemma random_source_is_the_ambient_state_witness :
  valid_input 2 3 1 [ramp 3 1; ramp 3 1] [3; 2] /\
  call_forward (fun (t : tensor3 Z) (_ _ : pyobj Z) => t) 8
    [ramp 3 1; ramp 3 1] [3; 2]
    [] [("generator"%string, PyRandomState 7)] = None /\
  run (unified_length 8 [ramp 3 1; ramp 3 1] [3; 2]) 5
  = (Returns (windows_at 8 [ramp 3 1; ramp 3 1] [3; 2] [5; 0]), 6).
Proof.
  assert (Hvalid : valid_input 2 3 1 [ramp 3 1; ramp 3 1] [3; 2]).
  { concrete_valid_input. }
  split; [exact Hvalid|].
  destruct (random_source_is_the_ambient_state
              (fun (t : tensor3 Z) (_ _ : pyobj Z) => t) 8 2 3 1
              [ramp 3 1; ramp 3 1] [3; 2] []
              [("generator"%string, PyRandomState 7)] 5 5
              ltac:(lia) ltac:(lia) Hvalid)
    as (_ & Hkeyword & _ & Hrun & _).
  split.
  - apply (Hkeyword "generator"%string (PyRandomState 7));
      [left; reflexivity|discriminate|discriminate].
  - exact (proj1 (Hrun 5)).
Defined.

(** C7, as stated, fails: no random source can be passed in.  A generator
    handed over under a keyword of its own, or as a further positional
    argument after the two flags, makes the call raise [TypeError]; handed
    over in the place of a flag it is accepted, but only as that flag: the
    same generator in the same state is passed to both calls, and the
    windows still differ with the ambient state. *)
Lemma random_source_cannot_be_passed :
  let gst := fun (t : tensor3 Z) (_ _ : pyobj Z) => t in
  call_forward gst 8 [ramp 3 1] [3] [] [("rng"%string, PyRandomState 7)]
  = None /\
  call_forward gst 8 [ramp 3 1] [3]
    [PyBool false; PyBool false; PyRandomState 7] [] = None /\
  exists p : prog (tensor3 Z),
    call_forward gst 8 [ramp 3 1] [3] [PyRandomState 7] [] = Some p /\
    fst (run p 0) <> fst (run p 1).
Proof.
  cbv zeta. split; [reflexivity|]. split; [reflexivity|].
  eexists. split; [reflexivity|].
  vm_compute. intros Heq. discriminate Heq.
Qed.

(* ================================================================== *)
(** * Part V: further properties of [LogSTFTMagnitudeLoss.forward] *)
(* ================================================================== *)

Section LogLossFacts.

Import LogSTFTMagnitudeLoss.

Local Open Scope R_scope.

Lemma torch_sum_abs_diff_nonneg (a b : tensor) : 0 <= torch_sum (abs_diff a b).
Proof.
  revert b. induction a as [|u a IH]; intros [|v b]; simpl;
    try (unfold torch_sum; simpl; lra).
  specialize (IH b). pose proof (Rabs_pos (u - v)).
  unfold torch_sum in *. simpl. lra.
Qed.

End LogLossFacts.

Section LogLossValue.

Import LogSTFTMagnitudeLoss.

Local Open Scope R_scope.

Lemma torch_mean_Some (t : tensor) (v : R) :
  torch_mean t = Some v ->
  v = torch_sum t / INR (length t) /\ (0 < length t)%nat.
Proof.
  destruct t as [|d rest]; [discriminate|].
  simpl. intros Hv. inversion Hv. split; [reflexivity|lia].
Qed.

End LogLossValue.

(** X9.  The loss is never negative: whenever [forward] has a value, the
    value is at least 0. *)
Theorem forward_nonnegative (x y : LogSTFTMagnitudeLoss.tensor) (v : R) :
  LogSTFTMagnitudeLoss.forward x y = Some v -> (0 <= v)%R.
Proof.
  unfold LogSTFTMagnitudeLoss.forward, LogSTFTMagnitudeLoss.l1_loss.
  intros Hv. apply torch_mean_Some in Hv. destruct Hv as [-> Hpos].
  apply Rmult_le_pos.
  - apply torch_sum_abs_diff_nonneg.
  - left. apply Rinv_0_lt_compat. apply lt_0_INR. exact Hpos.
Qed.

Lemma forward_nonnegative_witness :
  exists v : R,
    LogSTFTMagnitudeLoss.forward [2; 5]%R [3; 4]%R = Some v /\ (0 <= v)%R.
Proof.
  eexists. split; [reflexivity|].
  eapply (forward_nonnegative [2; 5]%R [3; 4]%R). reflexivity.
Defined.
